(** * webrtc-mvp signaling relay: a shallow embedding and its properties

    The development embeds the signaling server of the repository as
    pure functions over an explicit server state, and proves properties
    of the handlers and of every state the server can reach.

    The repository holds several versions of the server.  The embedded
    one is the first document of [src/unnamed/part_001] (its lines 1 to
    290): the version with room-id validation, same-room signalling,
    per-room display names and typed [error] events.  Line numbers in the
    comments below refer to that file.  [src/server.js] and the second
    document of [part_001] are versions without those checks: their
    [signal] handler forwards to any target, their [chat-message] handler
    copies the author sent by the client, and their [join] handler takes
    any room id.

    Modelling conventions.
    - A JavaScript string is a [string]; every character stands for one
      code unit (below 256), so [String.length] is the [.length] of the
      source.  The message literals of the source are kept as the bytes
      of the source file; no handler inspects them.
    - Values that arrive in event payloads are [jsval]s; truthiness and
      [typeof v === 'string'] are written out.
    - [Date.now()] is an argument [now : Z] of the handler that reads it.
    - [roomIdToSocketIds] is a JavaScript [Map] from room ids to [Set]s of
      socket ids.  Both keep insertion order, and the [signal] handler
      iterates over the entries, so the map is an association list and a
      set is a duplicate-free list.  [socketIdToUserName] and
      [userActivity] are only looked up by key and are [gmap]s.
    - Each connection owns a closure with the variable [currentRoomId];
      the closures are collected in the [sockets] table together with the
      liveness of the connection.
    - The transport (socket.io) is an external collaborator.  Its rooms
      are kept in [sioRooms].  The transport joins every connection to
      the room named by its own identifier when the connection opens and
      takes it out of every room when it closes; in between the rooms
      are driven by the [socket.join] and [socket.leave] calls of the
      handlers.  Room names and connection identifiers are one name
      space: a handler may join or leave a room whose name is the
      identifier of a connection.  As the transport documents them,
      [socket.emit] reaches the emitting socket, [socket.to(room).emit]
      reaches every socket joined to [room] except the emitting one, and
      [io.to(room).emit] reaches every socket joined to [room].  The
      [disconnect] handler runs when its socket has left every room.
    - A template literal converts its arguments to strings.  For an
      object that has a property [toString] of its own, which a payload
      cannot make callable, and for an array that holds such an object,
      the conversion throws a TypeError; such values are [JUnprintable].
    - A handler returns the new state, the list of delivered events
      (recipient, event) in emission order, and whether it threw.
      Every [throw] of these handlers comes before the handler has
      changed or emitted anything; the run goes on from the unchanged
      state. *)

From stdpp Require Import gmap strings list fin_maps.
From Stdlib Require Import ZArith Ascii String.

Local Open Scope string_scope.
Local Open Scope Z_scope.

#[local] Set Warnings "-clear-no-such-hyp".

(** ** JavaScript values of event payloads *)

Inductive jsval : Type :=
  | JUndefined
  | JNull
  | JBool (b : bool)
  | JNum (n : Z)
  | JStr (s : string)
  | JObj (body : string)
  | JUnprintable (body : string).

#[global] Instance jsval_eq_dec : EqDecision jsval.
Proof. solve_decision. Defined.

(** [!v] is [negb (truthy v)]. *)
Definition truthy (v : jsval) : bool :=
  match v with
  | JUndefined | JNull => false
  | JBool b => b
  | JNum n => negb (n =? 0)%Z
  | JStr s => negb (String.eqb s "")
  | JObj _ | JUnprintable _ => true
  end.

(** [`${v}`] throws a TypeError exactly on these. *)
Definition template_throws (v : jsval) : bool :=
  match v with
  | JUnprintable _ => true
  | _ => false
  end.

(** Property access [v.p] throws a TypeError exactly on these. *)
Definition nullish (v : jsval) : bool :=
  match v with
  | JUndefined | JNull => true
  | _ => false
  end.

Definition truthy_str (o : option string) : bool :=
  match o with
  | Some r => truthy (JStr r)
  | None => false
  end.

(** ** Character classes of the regular expressions *)

Definition code (c : ascii) : N := N_of_ascii c.

Definition in_range (lo hi : N) (c : ascii) : bool :=
  (lo <=? code c)%N && (code c <=? hi)%N.

Definition is_lower (c : ascii) : bool := in_range 97 122 c.
Definition is_upper (c : ascii) : bool := in_range 65 90 c.
Definition is_digit (c : ascii) : bool := in_range 48 57 c.

(** [[a-zA-Z0-9_-]] *)
Definition is_room_char (c : ascii) : bool :=
  is_lower c || is_upper c || is_digit c
  || (code c =? 95)%N || (code c =? 45)%N.

(** [\s], and the characters removed by [trim()], among code units below 256 *)
Definition is_space (c : ascii) : bool :=
  in_range 9 13 c || (code c =? 32)%N || (code c =? 160)%N.

(** [.] matches everything but a line terminator *)
Definition is_dot (c : ascii) : bool :=
  negb ((code c =? 10)%N || (code c =? 13)%N).

(** The class of [invalidChars]: less-than, greater-than, double quote,
    single quote and ampersand *)
Definition is_invalid_name_char (c : ascii) : bool :=
  (code c =? 60)%N || (code c =? 62)%N || (code c =? 34)%N
  || (code c =? 39)%N || (code c =? 38)%N.

Fixpoint drop_spaces (l : list ascii) : list ascii :=
  match l with
  | c :: l' => if is_space c then drop_spaces l' else l
  | [] => []
  end.

Definition trim (l : list ascii) : list ascii :=
  rev (drop_spaces (rev (drop_spaces l))).

(** Number of leading characters that satisfy [p]. *)
Fixpoint prefix_len (p : ascii -> bool) (l : list ascii) : nat :=
  match l with
  | c :: l' => if p c then S (prefix_len p l') else O
  | [] => O
  end.

(** [/[p]{n,}/.test(l)] *)
Fixpoint has_run (p : ascii -> bool) (n : nat) (l : list ascii) : bool :=
  (n <=? prefix_len p l)%nat
  || match l with
     | _ :: l' => has_run p n l'
     | [] => false
     end.

(** [/(.)\1{10,}/.test(l)]: a character followed by ten copies of itself *)
Fixpoint has_repeat (l : list ascii) : bool :=
  match l with
  | c :: l' =>
      (is_dot c && (10 <=? prefix_len (Ascii.eqb c) l')%nat) || has_repeat l'
  | [] => false
  end.

(** Equality up to ASCII case, as under the [i] flag; [lc] is lower case. *)
Definition eq_ci (c lc : ascii) : bool :=
  (code c =? code lc)%N || (code c + 32 =? code lc)%N && is_upper c.

(** [:\/\/[^\s]+] at the head of [l] *)
Definition url_tail (l : list ascii) : bool :=
  match l with
  | c1 :: c2 :: c3 :: c4 :: _ =>
      Ascii.eqb c1 ":" && Ascii.eqb c2 "/" && Ascii.eqb c3 "/"
      && negb (is_space c4)
  | _ => false
  end.

(** [https?:\/\/[^\s]+] at the head of [l] *)
Definition url_here (l : list ascii) : bool :=
  match l with
  | h :: t1 :: t2 :: p :: l' =>
      eq_ci h "h" && eq_ci t1 "t" && eq_ci t2 "t" && eq_ci p "p"
      && (url_tail l'
          || match l' with
             | s :: l'' => eq_ci s "s" && url_tail l''
             | [] => false
             end)
  | _ => false
  end.

(** [/https?:\/\/[^\s]+/gi.test(l)] on a fresh regular expression *)
Fixpoint has_url (l : list ascii) : bool :=
  url_here l
  || match l with
     | _ :: l' => has_url l'
     | [] => false
     end.

(** ** Configuration (lines 27-33) *)

Module BOT_PROTECTION.
Definition MAX_MESSAGES_PER_MINUTE : Z := 10.
Definition MAX_ROOMS_PER_HOUR : Z := 5.
Definition MIN_TIME_BETWEEN_MESSAGES : Z := 1000.
Definition MAX_MESSAGE_LENGTH : nat := 500.
Definition MAX_USERNAME_LENGTH : nat := 20.
End BOT_PROTECTION.

(** ** The validators (lines 97-127) *)

Definition validateMessage (text : jsval) : bool :=
  match text with
  | JStr t =>
      let cs := list_ascii_of_string t in
      if negb (truthy text) then false
      else if (BOT_PROTECTION.MAX_MESSAGE_LENGTH <? String.length t)%nat then false
      else if (List.length (trim cs) =? 0)%nat then false
      else if has_repeat cs then false
      else if has_url cs then false
      else if has_run is_upper 10 cs then false
      else if has_run is_digit 10 cs then false
      else true
  | _ => false
  end.

Definition validateUserName (userName : jsval) : bool :=
  match userName with
  | JStr u =>
      let cs := list_ascii_of_string u in
      if negb (truthy userName) then false
      else if (BOT_PROTECTION.MAX_USERNAME_LENGTH <? String.length u)%nat then false
      else if (List.length (trim cs) <? 2)%nat then false
      else if existsb is_invalid_name_char cs then false
      else true
  | _ => false
  end.

(** The guard of the [join] and [leave] handlers (lines 138 and 175):
    [!roomId || typeof roomId !== 'string' || roomId.length < 3 ||
     roomId.length > 32 || /[^a-zA-Z0-9_-]/.test(roomId)]. *)
Definition roomId_rejected (roomId : jsval) : bool :=
  match roomId with
  | JStr r =>
      negb (truthy roomId)
      || (String.length r <? 3)%nat
      || (32 <? String.length r)%nat
      || existsb (fun c => negb (is_room_char c)) (list_ascii_of_string r)
  | _ => true
  end.

(** ** JavaScript [Set] and [Map], in insertion order *)

Definition Set_has (x : string) (l : list string) : bool := bool_decide (x ∈ l).

Definition Set_add (x : string) (l : list string) : list string :=
  if Set_has x l then l else l ++ [x].

Definition Set_delete (x : string) (l : list string) : list string :=
  filter (λ y, y ≠ x) l.

(** [set.has(v)] for an arbitrary value: the sets hold strings only. *)
Definition Set_has_val (v : jsval) (l : list string) : bool :=
  match v with
  | JStr x => Set_has x l
  | _ => false
  end.

Section JsMap.
Context {V : Type}.

Fixpoint Map_get (k : string) (m : list (string * V)) : option V :=
  match m with
  | (k', v) :: m' => if decide (k = k') then Some v else Map_get k m'
  | [] => None
  end.

Definition Map_has (k : string) (m : list (string * V)) : bool :=
  match Map_get k m with
  | Some _ => true
  | None => false
  end.

(** An existing key keeps its position, a new key goes last. *)
Fixpoint Map_set (k : string) (v : V) (m : list (string * V)) : list (string * V) :=
  match m with
  | (k', v') :: m' =>
      if decide (k = k') then (k, v) :: m' else (k', v') :: Map_set k v m'
  | [] => [(k, v)]
  end.

(** Maps built by [Map_set] and [Map_delete] hold one entry per key. *)
Definition Map_delete (k : string) (m : list (string * V)) : list (string * V) :=
  filter (λ kv, kv.1 ≠ k) m.
End JsMap.

Abbreviation Rooms := (list (string * list string)).

(** ** Server state (lines 20-25 and 130) *)

Record Activity : Type := mkActivity {
  lastActivity : Z;
  messageCount : Z;
  lastMessageReset : Z;
  roomJoins : Z;
  lastRoomJoinReset : Z
}.

(** The closure of one connection, and whether the connection is open. *)
Record Socket : Type := mkSocket {
  connected : bool;
  currentRoomId : option string
}.

Record State : Type := mkState {
  roomIdToSocketIds : Rooms;
  socketIdToUserName : gmap string jsval;
  userActivity : gmap string Activity;
  sockets : gmap string Socket;
  sioRooms : Rooms
}.

Definition initial : State :=
  mkState [] ∅ ∅ ∅ [].

Definition with_rooms (m : Rooms) (s : State) : State :=
  mkState m (socketIdToUserName s) (userActivity s) (sockets s) (sioRooms s).
Definition with_names (n : gmap string jsval) (s : State) : State :=
  mkState (roomIdToSocketIds s) n (userActivity s) (sockets s) (sioRooms s).
Definition with_activity (a : gmap string Activity) (s : State) : State :=
  mkState (roomIdToSocketIds s) (socketIdToUserName s) a (sockets s) (sioRooms s).
Definition with_sockets (k : gmap string Socket) (s : State) : State :=
  mkState (roomIdToSocketIds s) (socketIdToUserName s) (userActivity s) k (sioRooms s).
Definition with_sio (m : Rooms) (s : State) : State :=
  mkState (roomIdToSocketIds s) (socketIdToUserName s) (userActivity s) (sockets s) m.

Definition is_connected (s : State) (id : string) : bool :=
  match sockets s !! id with
  | Some k => connected k
  | None => false
  end.

(** The value of the closure variable [currentRoomId] of connection [id]. *)
Definition current_room (s : State) (id : string) : option string :=
  sockets s !! id ≫= currentRoomId.

Definition set_current_room (id : string) (r : option string) (s : State) : State :=
  with_sockets (alter (λ k, mkSocket (connected k) r) id (sockets s)) s.

(** ** Outbound events *)

Inductive ServerEvent : Type :=
  | PeersList (peers : list string)
  | PeerJoined (socketId : string)
  | PeerLeft (socketId : string)
  | SignalEv (from : string) (data : jsval)
  | UserNameSet (socketId : string) (userName : jsval)
  | ChatMessageEv (author text timestamp : jsval)
  | ErrorEv (type : string) (message : string).

#[global] Instance ServerEvent_eq_dec : EqDecision ServerEvent.
Proof. solve_decision. Defined.

(** A delivered event: the receiving connection and the event. *)
Abbreviation Delivery := (string * ServerEvent)%type.

Record Result : Type := mkResult {
  st : State;
  out : list Delivery;
  threw : bool
}.

Definition returns (s : State) (o : list Delivery) : Result := mkResult s o false.

Module Msg.
Definition bad_room : string := "Недопустимый идентификатор комнаты".
Definition join_rate : string := "Превышен лимит присоединений к комнатам".
Definition not_in_room : string := "Пользователь не найден в вашей комнате".
Definition bad_name : string := "Недопустимое имя пользователя".
Definition name_taken : string := "Имя пользователя уже занято в комнате".
Definition bad_message : string := "Недопустимое сообщение".
Definition message_rate : string := "Превышен лимит сообщений".
Definition guest : string := "Гость".
End Msg.

(** ** The transport *)

(** [socket.emit(ev)] *)
Definition socket_emit (id : string) (ev : ServerEvent) : list Delivery :=
  [(id, ev)].

(** [socket.to(room).emit(ev)]: everyone joined to [room] but the sender *)
Definition socket_to_emit (sio : Rooms) (room sender : string) (ev : ServerEvent)
  : list Delivery :=
  (λ id, (id, ev)) <$> filter (λ id, id ≠ sender) (default [] (Map_get room sio)).

(** [io.to(to).emit(ev)]: everyone joined to the room [to].  The handler
    that calls it has found [to] in a set of strings before. *)
Definition io_to_emit (sio : Rooms) (to : jsval) (ev : ServerEvent) : list Delivery :=
  match to with
  | JStr room => (λ id, (id, ev)) <$> default [] (Map_get room sio)
  | _ => []
  end.

(** [socket.join(room)] *)
Definition socket_join (id room : string) (sio : Rooms) : Rooms :=
  Map_set room (Set_add id (default [] (Map_get room sio))) sio.

(** [socket.leave(room)]; the transport drops a room without members *)
Definition socket_leave (id room : string) (sio : Rooms) : Rooms :=
  match Map_get room sio with
  | Some members =>
      let members' := Set_delete id members in
      if (List.length members' =? 0)%nat then Map_delete room sio
      else Map_set room members' sio
  | None => sio
  end.

(** What the transport does to its rooms when a connection closes. *)
Definition socket_leave_all (id : string) (sio : Rooms) : Rooms :=
  filter (λ kv, kv.2 ≠ []) (prod_map (λ r, r) (Set_delete id) <$> sio).

(** ** Activity tracking and rate limits (lines 37-95) *)

Definition initializeUserActivity (now : Z) (socketId : string)
    (ua : gmap string Activity) : gmap string Activity :=
  <[socketId := mkActivity now 0 now 0 now]> ua.

(** Lines 48-53; defined by the source, called by none of its handlers. *)
Definition updateUserActivity (now : Z) (socketId : string)
    (ua : gmap string Activity) : gmap string Activity :=
  match ua !! socketId with
  | Some activity =>
      <[socketId := mkActivity now (messageCount activity)
                      (lastMessageReset activity) (roomJoins activity)
                      (lastRoomJoinReset activity)]> ua
  | None => ua
  end.

Definition checkMessageRate (now : Z) (socketId : string)
    (ua : gmap string Activity) : bool * gmap string Activity :=
  match ua !! socketId with
  | None => (true, ua)
  | Some activity =>
      let timeSinceLastMessage := now - lastActivity activity in
      if timeSinceLastMessage <? BOT_PROTECTION.MIN_TIME_BETWEEN_MESSAGES
      then (false, ua)
      else
        let activity1 :=
          if now - lastMessageReset activity >? 60000
          then mkActivity (lastActivity activity) 0 now
                 (roomJoins activity) (lastRoomJoinReset activity)
          else activity in
        if messageCount activity1 >=? BOT_PROTECTION.MAX_MESSAGES_PER_MINUTE
        then (false, <[socketId := activity1]> ua)
        else
          (true,
           <[socketId := mkActivity (lastActivity activity1)
                           (messageCount activity1 + 1)
                           (lastMessageReset activity1) (roomJoins activity1)
                           (lastRoomJoinReset activity1)]> ua)
  end.

Definition checkRoomJoinRate (now : Z) (socketId : string)
    (ua : gmap string Activity) : bool * gmap string Activity :=
  match ua !! socketId with
  | None => (true, ua)
  | Some activity =>
      let timeSinceLastRoomJoin := now - lastRoomJoinReset activity in
      let activity1 :=
        if timeSinceLastRoomJoin >? 3600000
        then mkActivity (lastActivity activity) (messageCount activity)
               (lastMessageReset activity) 0 now
        else activity in
      if roomJoins activity1 >=? BOT_PROTECTION.MAX_ROOMS_PER_HOUR
      then (false, <[socketId := activity1]> ua)
      else
        (true,
         <[socketId := mkActivity (lastActivity activity1)
                         (messageCount activity1) (lastMessageReset activity1)
                         (roomJoins activity1 + 1)
                         (lastRoomJoinReset activity1)]> ua)
  end.

(** ** The handlers of a connection (lines 129-283) *)

(** [io.on('connection')], lines 129-133: a fresh closure and a fresh
    activity record. *)
Definition on_connection (now : Z) (id : string) (s : State) : Result :=
  returns
    (with_sockets (<[id := mkSocket true None]> (sockets s))
       (with_activity (initializeUserActivity now id (userActivity s)) s))
    [].

(** The block shared by [join] (lines 151-156), [leave] (179-184) and
    [disconnect] (194-199):
    [const peers = roomIdToSocketIds.get(room);
     if (peers) { peers.delete(id); socket.to(room).emit('peer-left', ..);
                  if (peers.size === 0) roomIdToSocketIds.delete(room); }] *)
Definition leave_room (id room : string) (s : State) : State * list Delivery :=
  match Map_get room (roomIdToSocketIds s) with
  | Some peers =>
      let peers' := Set_delete id peers in
      let rooms1 := Map_set room peers' (roomIdToSocketIds s) in
      let o := socket_to_emit (sioRooms s) room id (PeerLeft id) in
      let rooms2 :=
        if (List.length peers' =? 0)%nat then Map_delete room rooms1 else rooms1 in
      (with_rooms rooms2 s, o)
  | None => (s, [])
  end.

(** [socket.on('join')], lines 135-170.  The log line 136 converts
    [roomId] to a string before the guard.  The last branch of the match
    is dead: the guard rejects every value that is not a string. *)
Definition on_join (now : Z) (id : string) (roomId : jsval) (s : State) : Result :=
  if template_throws roomId then mkResult s [] true
  else if roomId_rejected roomId
  then returns s (socket_emit id (ErrorEv "room" Msg.bad_room))
  else
    match roomId with
    | JStr r =>
        let '(ok, ua) := checkRoomJoinRate now id (userActivity s) in
        let s1 := with_activity ua s in
        if negb ok
        then returns s1 (socket_emit id (ErrorEv "room" Msg.join_rate))
        else
          let '(s2, o1) :=
            match current_room s1 id with
            | Some c =>
                if truthy (JStr c)
                then leave_room id c (with_sio (socket_leave id c (sioRooms s1)) s1)
                else (s1, [])
            | None => (s1, [])
            end in
          let rooms3 :=
            if Map_has r (roomIdToSocketIds s2) then roomIdToSocketIds s2
            else Map_set r [] (roomIdToSocketIds s2) in
          let peers := Set_add id (default [] (Map_get r rooms3)) in
          let s4 :=
            set_current_room id (Some r)
              (with_sio (socket_join id r (sioRooms s2))
                 (with_rooms (Map_set r peers rooms3) s2)) in
          let existingPeers := filter (λ p, p ≠ id) peers in
          returns s4
            (o1 ++ socket_emit id (PeersList existingPeers)
                ++ socket_to_emit (sioRooms s4) r id (PeerJoined id))
    | _ => returns s (socket_emit id (ErrorEv "room" Msg.bad_room))
    end.

(** [socket.on('leave')], lines 172-189.  The log line 173 converts
    [roomId] to a string before the guard. *)
Definition on_leave (id : string) (roomId : jsval) (s : State) : Result :=
  if template_throws roomId then mkResult s [] true
  else if roomId_rejected roomId
  then returns s (socket_emit id (ErrorEv "room" Msg.bad_room))
  else
    match roomId with
    | JStr r =>
        let '(s1, o) := leave_room id r s in
        let s2 := with_sio (socket_leave id r (sioRooms s1)) s1 in
        let s3 :=
          if bool_decide (current_room s2 id = Some r)
          then set_current_room id None s2 else s2 in
        returns (with_activity (delete id (userActivity s3)) s3) o
    | _ => returns s (socket_emit id (ErrorEv "room" Msg.bad_room))
    end.

(** [socket.on('disconnect')], lines 191-204.  The closure variable
    [currentRoomId] is read and not reset. *)
Definition on_disconnect (id : string) (s : State) : Result :=
  let '(s1, o) :=
    match current_room s id with
    | Some c => if truthy (JStr c) then leave_room id c s else (s, [])
    | None => (s, [])
    end in
  returns
    (with_activity (delete id (userActivity s1))
       (with_names (delete id (socketIdToUserName s1)) s1))
    o.

(** The loop of the [signal] handler: the first room, in insertion order,
    that holds both the sender and the target. *)
Definition find_target_room (id : string) (to : jsval) (m : Rooms) : option string :=
  fst <$> List.find (λ kv, Set_has id kv.2 && Set_has_val to kv.2) m.

(** [socket.on('signal')], lines 206-224.  The log line 217 converts
    [to] to a string before the error is emitted.  The log line 221
    evaluates [data.type], which throws when [data] is [null] or
    [undefined]; there [to] is a string. *)
Definition on_signal (id : string) (to data : jsval) (s : State) : Result :=
  if truthy to
  then
    let targetRoom := find_target_room id to (roomIdToSocketIds s) in
    if negb (truthy_str targetRoom)
    then
      if template_throws to then mkResult s [] true
      else returns s (socket_emit id (ErrorEv "signal" Msg.not_in_room))
    else if nullish data
    then mkResult s [] true
    else returns s (io_to_emit (sioRooms s) to (SignalEv id data))
  else returns s [].

(** [socket.on('set-user-name')], lines 226-257.  The log line 227
    converts [userName] to a string first.  Iterating over the peers
    throws when the room of the closure has no entry. *)
Definition on_set_user_name (id : string) (userName : jsval) (s : State) : Result :=
  if template_throws userName then mkResult s [] true
  else if negb (validateUserName userName)
  then returns s (socket_emit id (ErrorEv "username" Msg.bad_name))
  else
    let cur := current_room s id in
    let accept :=
      let s1 := with_names (<[id := userName]> (socketIdToUserName s)) s in
      match cur with
      | Some c =>
          if truthy (JStr c)
          then returns s1
                 (socket_to_emit (sioRooms s1) c id (UserNameSet id userName)
                  ++ socket_emit id (UserNameSet id userName))
          else returns s1 []
      | None => returns s1 []
      end in
    match cur with
    | Some c =>
        if truthy (JStr c)
        then
          match Map_get c (roomIdToSocketIds s) with
          | Some peers =>
              if existsb
                   (λ peerId,
                      bool_decide (peerId ≠ id)
                      && bool_decide (socketIdToUserName s !! peerId = Some userName))
                   peers
              then returns s (socket_emit id (ErrorEv "username" Msg.name_taken))
              else accept
          | None => mkResult s [] true
          end
        else accept
    | None => accept
    end.

(** [socket.on('chat-message')], lines 259-282.  The log line 261
    converts [author], a stored name or the guest label, and [text] to
    strings. *)
Definition on_chat_message (now : Z) (id : string) (text timestamp : jsval)
    (s : State) : Result :=
  let author :=
    match socketIdToUserName s !! id with
    | Some n => if truthy n then n else JStr Msg.guest
    | None => JStr Msg.guest
    end in
  if template_throws text then mkResult s [] true
  else if negb (validateMessage text)
  then returns s (socket_emit id (ErrorEv "chat" Msg.bad_message))
  else
    let '(ok, ua) := checkMessageRate now id (userActivity s) in
    let s1 := with_activity ua s in
    if negb ok
    then returns s1 (socket_emit id (ErrorEv "chat" Msg.message_rate))
    else
      match current_room s1 id with
      | Some c =>
          if truthy (JStr c)
          then returns s1
                 (socket_to_emit (sioRooms s1) c id
                    (ChatMessageEv author text timestamp))
          else returns s1 []
      | None => returns s1 []
      end.

(** ** Inbound events and the event loop *)

Inductive ClientEvent : Type :=
  | Connect (id : string)
  | Join (id : string) (roomId : jsval)
  | Leave (id : string) (roomId : jsval)
  | Disconnect (id : string)
  | Signal (id : string) (to data : jsval)
  | SetUserName (id : string) (userName : jsval)
  | ChatMessage (id : string) (author text timestamp : jsval).

Definition sender (ev : ClientEvent) : string :=
  match ev with
  | Connect id | Join id _ | Leave id _ | Disconnect id | Signal id _ _
  | SetUserName id _ | ChatMessage id _ _ _ => id
  end.

(** The transport opens a connection: it joins the room named by its
    identifier. *)
Definition transport_open (id : string) (s : State) : State :=
  with_sio (socket_join id id (sioRooms s)) s.

(** The transport closes a connection: it leaves every room, and no
    further event of the connection is dispatched. *)
Definition transport_close (id : string) (s : State) : State :=
  with_sio (socket_leave_all id (sioRooms s))
    (with_sockets (alter (λ k, mkSocket false (currentRoomId k)) id (sockets s)) s).

(** A [disconnect]: the transport closes the connection and then runs
    the handler. *)
Definition disconnect (id : string) (s : State) : Result :=
  on_disconnect id (transport_close id s).

(** One turn of the event loop at clock reading [now].  The transport
    hands out identifiers that are non-empty and were never used, and
    delivers the events of open connections only.  An event carries the
    fields that its handler destructures from the payload, so the
    payload of [signal], [set-user-name] and [chat-message] is taken to
    be an object.  The handler of [chat-message] destructures [text] and
    [timestamp] and nothing else from its payload. *)
Definition dispatch (now : Z) (s : State) (ev : ClientEvent) : Result :=
  match ev with
  | Connect id =>
      if String.eqb id "" || bool_decide (is_Some (sockets s !! id))
      then returns s []
      else on_connection now id (transport_open id s)
  | _ =>
      if negb (is_connected s (sender ev)) then returns s []
      else
        match ev with
        | Connect _ => returns s []
        | Join id roomId => on_join now id roomId s
        | Leave id roomId => on_leave id roomId s
        | Disconnect id => disconnect id s
        | Signal id to data => on_signal id to data s
        | SetUserName id userName => on_set_user_name id userName s
        | ChatMessage id _ text timestamp => on_chat_message now id text timestamp s
        end
  end.

Inductive reachable : State → Prop :=
  | reachable_initial : reachable initial
  | reachable_dispatch now s ev :
      reachable s → reachable (st (dispatch now s ev)).

Fixpoint run (s : State) (evs : list (Z * ClientEvent)) : State :=
  match evs with
  | (now, ev) :: evs' => run (st (dispatch now s ev)) evs'
  | [] => s
  end.

(** ** The activity tracker of [src/server.js]

    [src/server.js] (lines 77-188 and 384-394; the limiters are also
    those of the second document of [src/unnamed/part_001], lines
    329-392) keeps one [joinTime] per record, which is the start of the
    minute window of the messages and of the hour window of the joins,
    takes its records from a pool, and sweeps the records every five
    minutes.  The sweep iterates over [userActivity], so the map is an
    association list here.  A record is in the pool only after the sweep
    has removed it from the map, so no record is shared and records are
    values. *)
Module ServerJs.

Record Activity : Type := mkActivity {
  lastActivity : Z;
  messageCount : Z;
  joinTime : Z;
  roomJoins : Z
}.

Record Tracker : Type := mkTracker {
  userActivity : list (string * Activity);
  socketIdToUserName : gmap string jsval;
  activityPool : list Activity
}.

(** [activityPool.pop() || { lastActivity: 0, ... }], lines 99-106 *)
Definition getActivityFromPool (pool : list Activity) : Activity * list Activity :=
  match rev pool with
  | activity :: rest => (activity, rev rest)
  | [] => (mkActivity 0 0 0 0, [])
  end.

(** Lines 108-114: the four fields are zeroed and the record is pushed. *)
Definition returnActivityToPool (activity : Activity) (pool : list Activity)
  : list Activity :=
  (pool ++ [mkActivity 0 0 0 0])%list.

(** Lines 125-132; the clock is read twice. *)
Definition initializeUserActivity (now1 now2 : Z) (socketId : string)
    (t : Tracker) : Tracker :=
  let '(activity, pool) := getActivityFromPool (activityPool t) in
  mkTracker
    (Map_set socketId (mkActivity now1 0 now2 0) (userActivity t))
    (socketIdToUserName t) pool.

(** Lines 141-166 *)
Definition checkMessageRate (now : Z) (socketId : string)
    (ua : list (string * Activity)) : bool * list (string * Activity) :=
  match Map_get socketId ua with
  | None => (true, ua)
  | Some activity =>
      let timeSinceLastMessage := now - lastActivity activity in
      if timeSinceLastMessage <? BOT_PROTECTION.MIN_TIME_BETWEEN_MESSAGES
      then (false, ua)
      else
        let activity1 :=
          if now - joinTime activity >? 60000
          then mkActivity (lastActivity activity) 0 now (roomJoins activity)
          else activity in
        if messageCount activity1 >=? BOT_PROTECTION.MAX_MESSAGES_PER_MINUTE
        then (false, Map_set socketId activity1 ua)
        else
          (true,
           Map_set socketId
             (mkActivity (lastActivity activity1) (messageCount activity1 + 1)
                (joinTime activity1) (roomJoins activity1)) ua)
  end.

(** Lines 168-188 *)
Definition checkRoomJoinRate (now : Z) (socketId : string)
    (ua : list (string * Activity)) : bool * list (string * Activity) :=
  match Map_get socketId ua with
  | None => (true, ua)
  | Some activity =>
      let timeSinceJoin := now - joinTime activity in
      let activity1 :=
        if timeSinceJoin >? 3600000
        then mkActivity (lastActivity activity) (messageCount activity) now 0
        else activity in
      if roomJoins activity1 >=? BOT_PROTECTION.MAX_ROOMS_PER_HOUR
      then (false, Map_set socketId activity1 ua)
      else
        (true,
         Map_set socketId
           (mkActivity (lastActivity activity1) (messageCount activity1)
              (joinTime activity1) (roomJoins activity1 + 1)) ua)
  end.

(** The body of the first loop of the sweep, lines 389-393. *)
Definition sweep_entry (now : Z) (t : Tracker) (entry : string * Activity)
  : Tracker :=
  let '(socketId, activity) := entry in
  if now - lastActivity activity >? 300000
  then mkTracker (Map_delete socketId (userActivity t))
         (delete socketId (socketIdToUserName t))
         (returnActivityToPool activity (activityPool t))
  else t.

(** The first loop of the interval callback, lines 385-394: it visits
    the entries that [userActivity] has when the sweep starts. *)
Definition sweep (now : Z) (t : Tracker) : Tracker :=
  foldl (sweep_entry now) t (userActivity t).

(** A call of one of the two limiters. *)
Inductive Check : Type :=
  | CheckMessage (now : Z) (socketId : string)
  | CheckJoin (now : Z) (socketId : string).

Definition run_check (ua : list (string * Activity)) (c : Check)
  : list (string * Activity) :=
  match c with
  | CheckMessage now socketId => (checkMessageRate now socketId ua).2
  | CheckJoin now socketId => (checkRoomJoinRate now socketId ua).2
  end.

End ServerJs.

(** ** Vocabulary of the specification *)

(** Connection [id] is a member of room [r] in the room map [m], which is
    the directory or the rooms of the transport. *)
Definition member (m : Rooms) (id r : string) : Prop :=
  ∃ peers, Map_get r m = Some peers ∧ id ∈ peers.

(** Two connections share a room of the directory. *)
Definition same_room (s : State) (a b : string) : Prop :=
  ∃ r, member (roomIdToSocketIds s) a r ∧ member (roomIdToSocketIds s) b r.

(** A room map as the source maintains it: one entry per room id, and
    every member list duplicate-free and non-empty. *)
Definition wf_rooms (m : Rooms) : Prop :=
  NoDup m.*1 ∧ ∀ r peers, Map_get r m = Some peers → peers ≠ [] ∧ NoDup peers.

(** The invariant of the reachable states. *)
Record Inv (s : State) : Prop := mkInv {
  inv_rooms : wf_rooms (roomIdToSocketIds s);
  inv_member : ∀ id r,
    member (roomIdToSocketIds s) id r
    ↔ is_connected s id = true ∧ current_room s id = Some r;
  inv_current : ∀ id r,
    current_room s id = Some r → roomId_rejected (JStr r) = false;
  inv_sio_rooms : wf_rooms (sioRooms s);
  inv_sio_dir : ∀ id r,
    member (roomIdToSocketIds s) id r → member (sioRooms s) id r;
  inv_sio_own : ∀ id r,
    member (sioRooms s) id r → member (roomIdToSocketIds s) id r ∨ r = id;
  inv_sio_open : ∀ id r,
    member (sioRooms s) id r → is_connected s id = true;
  inv_activity : ∀ id,
    is_Some (userActivity s !! id) → is_connected s id = true;
  inv_names : ∀ id n,
    socketIdToUserName s !! id = Some n
    → is_connected s id = true ∧ validateUserName n = true;
  inv_ids : ∀ id, is_Some (sockets s !! id) → id ≠ ""
}.

(** The directory once connection [id] has left the room of its closure. *)
Definition rooms_without (id : string) (s : State) : Rooms :=
  match current_room s id with
  | Some c => socket_leave id c (roomIdToSocketIds s)
  | None => roomIdToSocketIds s
  end.

(** The rooms of the transport once connection [id] has left the room of
    its closure. *)
Definition sio_without (id : string) (s : State) : Rooms :=
  match current_room s id with
  | Some c => socket_leave id c (sioRooms s)
  | None => sioRooms s
  end.

(** A letter, a digit, a hyphen or an underscore. *)
Definition RoomIdChar (c : ascii) : Prop :=
  (97 ≤ code c ≤ 122)%N ∨ (65 ≤ code c ≤ 90)%N ∨ (48 ≤ code c ≤ 57)%N
  ∨ c = "-"%char ∨ c = "_"%char.

(** Another member of the room of [id] holds the display name [userName]. *)
Definition name_taken (s : State) (id : string) (userName : jsval) : Prop :=
  ∃ c peer,
    current_room s id = Some c ∧ member (roomIdToSocketIds s) peer c
    ∧ peer ≠ id ∧ socketIdToUserName s !! peer = Some userName.

(** Exactly the open connections have an activity record. *)
Definition records_match (s : State) : Prop :=
  ∀ id, is_Some (userActivity s !! id) ↔ is_connected s id = true.

(** ** Example runs *)

(** Three connections in the room [room_1]; [A] is called [bob]. *)
Definition three_in_room : State :=
  run initial
    [(0, Connect "A"); (0, Connect "B"); (0, Connect "C");
     (10, Join "A" (JStr "room_1")); (20, Join "B" (JStr "room_1"));
     (30, Join "C" (JStr "room_1")); (40, SetUserName "A" (JStr "bob"))].

(** [A] in [room_1] and [D] in [room_2]; [A] is called [bob]. *)
Definition two_rooms : State :=
  run initial
    [(0, Connect "A"); (0, Connect "D");
     (10, Join "A" (JStr "room_1")); (20, Join "D" (JStr "room_2"));
     (40, SetUserName "A" (JStr "bob"))].

(** [A] named itself, joined [room_1] and left it again. *)
Definition joined_and_left : State :=
  run initial
    [(0, Connect "A"); (5, SetUserName "A" (JStr "bob"));
     (10, Join "A" (JStr "room_1")); (20, Leave "A" (JStr "room_1"))].

(** ** Vocabulary of the further properties *)

(** [l] has [n] consecutive characters that satisfy [p]. *)
Definition contains_run (p : ascii → bool) (n : nat) (l : list ascii) : Prop :=
  ∃ pre mid post,
    l = (pre ++ mid ++ post)%list ∧ List.length mid = n
    ∧ Forall (λ c, p c = true) mid.

(** [l] has eleven consecutive copies of a character that is not a line
    terminator. *)
Definition contains_repeat (l : list ascii) : Prop :=
  ∃ pre c post, l = (pre ++ replicate 11 c ++ post)%list ∧ is_dot c = true.

(** [l] has [http] or [https] in any letter case, then [://], then a
    character that is not white space. *)
Definition contains_url (l : list ascii) : Prop :=
  ∃ pre h t1 t2 p s c post,
    l = (pre ++ [h; t1; t2; p] ++ s ++ [":"; "/"; "/"; c] ++ post)%char%list
    ∧ (h = "h" ∨ h = "H")%char ∧ (t1 = "t" ∨ t1 = "T")%char
    ∧ (t2 = "t" ∨ t2 = "T")%char ∧ (p = "p" ∨ p = "P")%char
    ∧ (s = [] ∨ s = ["s"%char] ∨ s = ["S"%char])
    ∧ is_space c = false.

(** The counters of an activity record are within their limits. *)
Definition counters_ok (a : Activity) : Prop :=
  0 ≤ messageCount a ≤ BOT_PROTECTION.MAX_MESSAGES_PER_MINUTE
  ∧ 0 ≤ roomJoins a ≤ BOT_PROTECTION.MAX_ROOMS_PER_HOUR.

(** [A] in [room_1] and [D] in [room_2], both called [bob]. *)
Definition two_bobs : State :=
  run two_rooms [(50, SetUserName "D" (JStr "bob"))].

(** [AAAA] and [BBBB] share [room_1], and [EEEE] has joined the room
    whose name is the identifier of [BBBB]. *)
Definition room_named_by_id : State :=
  run initial
    [(0, Connect "AAAA"); (0, Connect "BBBB"); (0, Connect "EEEE");
     (10, Join "AAAA" (JStr "room_1")); (20, Join "BBBB" (JStr "room_1"));
     (30, Join "EEEE" (JStr "BBBB"))].

(** [AAAA] and [BBBB] share [room_1], and [BBBB] has left the room whose
    name is its own identifier. *)
Definition own_room_left : State :=
  run initial
    [(0, Connect "AAAA"); (0, Connect "BBBB");
     (10, Join "AAAA" (JStr "room_1")); (20, Join "BBBB" (JStr "room_1"));
     (30, Leave "BBBB" (JStr "BBBB"))].

(** * Properties *)

(** ** [Set] and [Map] *)

Lemma Set_has_true x l : Set_has x l = true ↔ x ∈ l.
Proof. unfold Set_has. apply bool_decide_eq_true. Qed.

Lemma elem_of_Set_delete y x l : y ∈ Set_delete x l ↔ y ∈ l ∧ y ≠ x.
Proof. unfold Set_delete. rewrite list_elem_of_filter. tauto. Qed.

Lemma NoDup_Set_delete x l : NoDup l → NoDup (Set_delete x l).
Proof. apply NoDup_filter. Qed.

Lemma Set_delete_absent x l : x ∉ l → Set_delete x l = l.
Proof.
  intros Hx. unfold Set_delete. induction l as [|y l IH]; [done|].
  rewrite filter_cons. apply not_elem_of_cons in Hx as [Hxy Hl].
  rewrite decide_True by done. by rewrite IH.
Qed.

Lemma Set_delete_idemp x l : Set_delete x (Set_delete x l) = Set_delete x l.
Proof. apply Set_delete_absent. rewrite elem_of_Set_delete. tauto. Qed.

Lemma elem_of_Set_add y x l : y ∈ Set_add x l ↔ y ∈ l ∨ y = x.
Proof.
  unfold Set_add. destruct (Set_has x l) eqn:E.
  - apply Set_has_true in E. split; [tauto|]. intros [?| ->]; done.
  - rewrite elem_of_app, list_elem_of_singleton. tauto.
Qed.

Lemma NoDup_Set_add x l : NoDup l → NoDup (Set_add x l).
Proof.
  intros Hl. unfold Set_add. destruct (Set_has x l) eqn:E; [done|].
  apply NoDup_app. split_and!; [done| |apply NoDup_singleton].
  intros y Hy ->%list_elem_of_singleton.
  apply Set_has_true in Hy. congruence.
Qed.

Section JsMap_facts.
Context {V : Type}.
Implicit Types (m : list (string * V)) (k : string) (v : V).

Lemma Map_get_set_eq k v m : Map_get k (Map_set k v m) = Some v.
Proof.
  induction m as [|[k' v'] m IH]; simpl.
  - by rewrite decide_True.
  - destruct (decide (k = k')) as [->|Hne]; simpl.
    + by rewrite decide_True.
    + by rewrite decide_False.
Qed.

Lemma Map_get_set_ne k k' v m : k ≠ k' → Map_get k' (Map_set k v m) = Map_get k' m.
Proof.
  intros Hne. induction m as [|[k0 v0] m IH]; simpl.
  - by rewrite decide_False.
  - destruct (decide (k = k0)) as [->|Hne0]; simpl.
    + by rewrite !decide_False.
    + destruct (decide (k' = k0)); [done|apply IH].
Qed.

Lemma Map_get_delete_eq k m : Map_get k (Map_delete k m) = None.
Proof.
  unfold Map_delete. induction m as [|[k' v'] m IH]; [done|].
  rewrite filter_cons. simpl. destruct (decide (k' ≠ k)) as [Hne|Heq]; [|done].
  simpl. by rewrite decide_False.
Qed.

Lemma Map_get_delete_ne k k' m : k ≠ k' → Map_get k' (Map_delete k m) = Map_get k' m.
Proof.
  intros Hne. unfold Map_delete. induction m as [|[k0 v0] m IH]; [done|].
  rewrite filter_cons. simpl. destruct (decide (k0 ≠ k)) as [Hne0|Heq]; simpl.
  - by rewrite IH.
  - apply dec_stable in Heq as ->. by rewrite decide_False.
Qed.

Lemma Map_get_elem_of k v m : Map_get k m = Some v → (k, v) ∈ m.
Proof.
  induction m as [|[k' v'] m IH]; simpl; [done|].
  destruct (decide (k = k')) as [->|Hne].
  - intros [= ->]. left.
  - intros H. right. by apply IH.
Qed.

Lemma Map_get_None k m : Map_get k m = None ↔ k ∉ m.*1.
Proof.
  induction m as [|[k' v'] m IH]; csimpl.
  - split; [intros _; apply not_elem_of_nil|done].
  - rewrite not_elem_of_cons. destruct (decide (k = k')) as [->|Hne].
    + split; [done|]. intros [? _]. done.
    + rewrite IH. tauto.
Qed.

Lemma Map_elem_of_get k v m : NoDup m.*1 → (k, v) ∈ m → Map_get k m = Some v.
Proof.
  induction m as [|[k' v'] m IH]; csimpl.
  - intros _ H. by apply elem_of_nil in H.
  - intros [Hk' Hm]%NoDup_cons [Heq|Hin]%elem_of_cons.
    + injection Heq as -> ->. by rewrite decide_True.
    + destruct (decide (k = k')) as [->|Hne]; [|by apply IH].
      exfalso. apply Hk'. apply list_elem_of_fmap. by exists (k', v).
Qed.

Lemma Map_set_keys k v m :
  (Map_set k v m).*1 = if Map_has k m then m.*1 else (m.*1 ++ [k])%list.
Proof.
  unfold Map_has. induction m as [|[k' v'] m IH]; csimpl; [done|].
  destruct (decide (k = k')) as [->|Hne]; csimpl; [done|].
  rewrite IH. by destruct (Map_get k m).
Qed.

Lemma NoDup_Map_set k v m : NoDup m.*1 → NoDup (Map_set k v m).*1.
Proof.
  intros Hm. rewrite Map_set_keys. unfold Map_has.
  destruct (Map_get k m) eqn:E; [done|].
  apply NoDup_app. split_and!; [done| |apply NoDup_singleton].
  intros x Hx ->%list_elem_of_singleton. by apply Map_get_None in E.
Qed.

Lemma NoDup_Map_delete k m : NoDup m.*1 → NoDup (Map_delete k m).*1.
Proof.
  unfold Map_delete. induction m as [|[k' v'] m IH]; [done|].
  rewrite filter_cons. csimpl. intros [Hk' Hm]%NoDup_cons.
  destruct (decide (k' ≠ k)); [|by apply IH].
  csimpl. apply NoDup_cons. split; [|by apply IH].
  intros [[k0 v0] [Hk0 Hin]]%list_elem_of_fmap. csimpl in Hk0. subst k0.
  apply list_elem_of_filter in Hin as [_ Hin].
  apply Hk'. apply list_elem_of_fmap. by exists (k', v0).
Qed.


Lemma Map_delete_id k m : Map_get k m = None → Map_delete k m = m.
Proof.
  unfold Map_delete. induction m as [|[k' v'] m IH]; simpl; [done|].
  destruct (decide (k = k')) as [->|Hne]; [done|].
  intros H. rewrite filter_cons. simpl. rewrite decide_True by done.
  by rewrite IH.
Qed.

Lemma Map_delete_set k v m : Map_delete k (Map_set k v m) = Map_delete k m.
Proof.
  unfold Map_delete. induction m as [|[k' v'] m IH]; simpl.
  - rewrite filter_cons. simpl. by rewrite decide_False by (intros ?; done).
  - destruct (decide (k = k')) as [->|Hne].
    + rewrite !filter_cons. simpl. by rewrite !decide_False by (intros ?; done).
    + rewrite !filter_cons. simpl. rewrite !decide_True by congruence. by rewrite IH.
Qed.

Lemma Map_set_set k v v' m : Map_set k v (Map_set k v' m) = Map_set k v m.
Proof.
  induction m as [|[k0 v0] m IH]; simpl.
  - by rewrite decide_True.
  - destruct (decide (k = k0)) as [->|Hne]; simpl.
    + by rewrite decide_True.
    + rewrite decide_False by done. by rewrite IH.
Qed.

Lemma Map_has_true k m : Map_has k m = true ↔ is_Some (Map_get k m).
Proof.
  unfold Map_has. destruct (Map_get k m); split; intros H; done.
Qed.
End JsMap_facts.

(** ** Rooms: joining and leaving *)

Lemma member_socket_leave m id r id' r' :
  member (socket_leave id r m) id' r' ↔ member m id' r' ∧ ¬ (id' = id ∧ r' = r).
Proof.
  unfold member, socket_leave.
  destruct (Map_get r m) as [peers|] eqn:Hr.
  - pose proof (elem_of_Set_delete id' id peers) as Hd.
    destruct (decide (r = r')) as [<-|Hne].
    + destruct (Nat.eqb_spec (List.length (Set_delete id peers)) 0) as [Hz|Hnz].
      * rewrite Map_get_delete_eq. apply nil_length_inv in Hz. rewrite Hz in Hd.
        rewrite Hr. split; [naive_solver|].
        intros [(ps & [= <-] & Hin) Hn]. exfalso.
        eapply not_elem_of_nil, Hd. naive_solver.
      * rewrite Map_get_set_eq, Hr. naive_solver.
    + destruct (Nat.eqb_spec (List.length (Set_delete id peers)) 0) as [Hz|Hnz].
      * rewrite Map_get_delete_ne by done. naive_solver.
      * rewrite Map_get_set_ne by done. naive_solver.
  - split; [|naive_solver]. intros (ps & Hg & Hin). split; [by eexists|].
    intros [-> ->]. congruence.
Qed.

Lemma wf_socket_leave m id r : wf_rooms m → wf_rooms (socket_leave id r m).
Proof.
  intros [Hk Hm]. unfold socket_leave.
  destruct (Map_get r m) as [peers|] eqn:Hr; [|done].
  destruct (Nat.eqb_spec (List.length (Set_delete id peers)) 0) as [Hz|Hnz].
  - split; [by apply NoDup_Map_delete|].
    intros r' ps. destruct (decide (r = r')) as [<-|Hne].
    + by rewrite Map_get_delete_eq.
    + rewrite Map_get_delete_ne by done. apply Hm.
  - split; [by apply NoDup_Map_set|].
    intros r' ps. destruct (decide (r = r')) as [<-|Hne].
    + rewrite Map_get_set_eq. intros [= <-]. split.
      * intros E. by rewrite E in Hnz.
      * apply NoDup_Set_delete. by apply (Hm r peers).
    + rewrite Map_get_set_ne by done. apply Hm.
Qed.

Lemma member_socket_join m id r id' r' :
  member (socket_join id r m) id' r' ↔ member m id' r' ∨ (id' = id ∧ r' = r).
Proof.
  unfold member, socket_join.
  destruct (decide (r = r')) as [<-|Hne].
  - rewrite Map_get_set_eq. split.
    + intros (ps & [= <-] & Hin). apply elem_of_Set_add in Hin as [Hin| ->]; [|by right].
      left. destruct (Map_get r m) as [peers|]; [by eexists|].
      by apply elem_of_nil in Hin.
    + intros [(ps & Hg & Hin)|[-> _]]; eexists; (split; [done|]);
        apply elem_of_Set_add; [|by right].
      left. by rewrite Hg.
  - rewrite Map_get_set_ne by done. naive_solver.
Qed.

Lemma wf_socket_join m id r : wf_rooms m → wf_rooms (socket_join id r m).
Proof.
  intros [Hk Hm]. unfold socket_join. split; [by apply NoDup_Map_set|].
  intros r' ps. destruct (decide (r = r')) as [<-|Hne].
  - rewrite Map_get_set_eq. intros [= <-]. split.
    + intros E. assert (id ∈ Set_add id (default [] (Map_get r m))) as Hin
        by (apply elem_of_Set_add; by right).
      rewrite E in Hin. by apply elem_of_nil in Hin.
    + apply NoDup_Set_add. destruct (Map_get r m) as [peers|] eqn:Hr; simpl.
      * by apply (Hm r peers).
      * apply NoDup_nil_2.
  - rewrite Map_get_set_ne by done. apply Hm.
Qed.


Lemma Map_get_socket_leave_all m id r :
  NoDup m.*1 →
  Map_get r (socket_leave_all id m)
  = Map_get r m
    ≫= λ peers, if decide (Set_delete id peers = []) then None
                else Some (Set_delete id peers).
Proof.
  unfold socket_leave_all. induction m as [|[k ps] m IH]; intros Hk; [done|].
  apply NoDup_cons in Hk as [Hk Hk']. specialize (IH Hk').
  rewrite fmap_cons, filter_cons. simpl.
  destruct (decide (r = k)) as [->|Hne].
  - destruct (decide (Set_delete id ps ≠ [])) as [Hne|He]; simpl.
    + rewrite decide_True by done. by rewrite decide_False.
    + rewrite IH. assert (Map_get k m = None) as -> by (by apply Map_get_None).
      destruct (decide (Set_delete id ps = [])) as [_|Hn]; [done|].
      by destruct (Set_delete id ps).
  - destruct (decide (Set_delete id ps ≠ [])); simpl; [|done].
    by rewrite decide_False.
Qed.

Lemma member_socket_leave_all m id id' r' :
  NoDup m.*1 →
  member (socket_leave_all id m) id' r' ↔ member m id' r' ∧ id' ≠ id.
Proof.
  intros Hk. unfold member. rewrite (Map_get_socket_leave_all m id r' Hk).
  destruct (Map_get r' m) as [peers|]; simpl; [|naive_solver].
  pose proof (elem_of_Set_delete id' id peers) as Hd.
  destruct (decide (Set_delete id peers = [])) as [He|Hne].
  - rewrite He in Hd. split; [naive_solver|].
    intros [(ps & [= <-] & Hin) Hn]. exfalso.
    eapply not_elem_of_nil, Hd. naive_solver.
  - naive_solver.
Qed.

Lemma socket_leave_all_keys m id :
  NoDup m.*1 → NoDup (socket_leave_all id m).*1.
Proof.
  unfold socket_leave_all. induction m as [|[k ps] m IH]; intros Hk; [done|].
  apply NoDup_cons in Hk as [Hk Hk']. specialize (IH Hk').
  rewrite fmap_cons, filter_cons. simpl.
  destruct (decide (Set_delete id ps ≠ [])); [|done].
  rewrite fmap_cons. simpl. apply NoDup_cons. split; [|done].
  intros ([k0 ps0] & -> & [_ Hin]%list_elem_of_filter)%list_elem_of_fmap.
  apply list_elem_of_fmap in Hin as ([k1 ps1] & [= -> ->] & Hin). simpl in *.
  apply Hk. apply list_elem_of_fmap. by exists (k1, ps1).
Qed.

Lemma wf_socket_leave_all m id : wf_rooms m → wf_rooms (socket_leave_all id m).
Proof.
  intros [Hk Hm]. split; [by apply socket_leave_all_keys|].
  intros r ps. rewrite (Map_get_socket_leave_all m id r Hk).
  destruct (Map_get r m) as [peers|] eqn:Hr; simpl; [|done].
  destruct (decide (Set_delete id peers = [])); [done|].
  intros [= <-]. split; [done|]. apply NoDup_Set_delete. by apply (Hm r peers).
Qed.

(** ** Rate limits keep the set of activity records *)

Lemma insert_existing_is_Some {V} (m : gmap string V) k v k' :
  is_Some (m !! k) → is_Some (<[k := v]> m !! k') ↔ is_Some (m !! k').
Proof.
  intros Hk. destruct (decide (k = k')) as [<-|Hne].
  - rewrite lookup_insert_eq. split; [done|]. intros _. by eexists.
  - by rewrite lookup_insert_ne.
Qed.

Lemma checkMessageRate_records now id ua id' :
  is_Some ((checkMessageRate now id ua).2 !! id') ↔ is_Some (ua !! id').
Proof.
  unfold checkMessageRate. destruct (ua !! id) as [a|] eqn:Ha; [|done].
  assert (is_Some (ua !! id)) as Hs by (by eexists).
  repeat case_match; simpl; try done; by apply insert_existing_is_Some.
Qed.

Lemma checkRoomJoinRate_records now id ua id' :
  is_Some ((checkRoomJoinRate now id ua).2 !! id') ↔ is_Some (ua !! id').
Proof.
  unfold checkRoomJoinRate. destruct (ua !! id) as [a|] eqn:Ha; [|done].
  assert (is_Some (ua !! id)) as Hs by (by eexists).
  repeat case_match; simpl; try done; by apply insert_existing_is_Some.
Qed.

(** ** What the handlers do to the state *)

Lemma roomId_accepted_truthy r : roomId_rejected (JStr r) = false → truthy (JStr r) = true.
Proof.
  unfold roomId_rejected. intros H.
  apply orb_false_elim in H as [H _]. apply orb_false_elim in H as [H _].
  apply orb_false_elim in H as [H _]. by apply negb_false_iff in H.
Qed.

Lemma with_rooms_id s : with_rooms (roomIdToSocketIds s) s = s.
Proof. by destruct s. Qed.

Lemma leave_room_st id r s :
  (leave_room id r s).1 = with_rooms (socket_leave id r (roomIdToSocketIds s)) s.
Proof.
  unfold leave_room, socket_leave.
  destruct (Map_get r (roomIdToSocketIds s)) as [peers|]; simpl.
  - destruct (List.length (Set_delete id peers) =? 0)%nat; [|done].
    by rewrite Map_delete_set.
  - by rewrite with_rooms_id.
Qed.

Lemma leave_room_out id r s :
  (leave_room id r s).2
  = if Map_has r (roomIdToSocketIds s)
    then socket_to_emit (sioRooms s) r id (PeerLeft id) else [].
Proof.
  unfold leave_room, Map_has. by destruct (Map_get r (roomIdToSocketIds s)).
Qed.

Lemma current_room_truthy s id c :
  Inv s → current_room s id = Some c → truthy (JStr c) = true.
Proof. intros HI Hc. eapply roomId_accepted_truthy, inv_current; eauto. Qed.

Lemma connected_lookup s id :
  is_connected s id = true →
  ∃ k, sockets s !! id = Some k ∧ connected k = true.
Proof.
  unfold is_connected. destruct (sockets s !! id) as [k|]; [|done]. by exists k.
Qed.

Lemma member_unique s id r r' :
  Inv s → member (roomIdToSocketIds s) id r → member (roomIdToSocketIds s) id r' → r = r'.
Proof.
  intros HI [_ H1]%(inv_member s HI) [_ H2]%(inv_member s HI). congruence.
Qed.

(** ** Re-establishing the invariant *)

(** A handler of connection [id] that replaces the closure of [id] and
    rebuilds the directory. *)
Lemma Inv_update s id k' rooms' names' ua' sio' :
  Inv s → id ≠ "" →
  wf_rooms rooms' →
  (∀ id' r', member rooms' id' r'
     ↔ if decide (id' = id) then connected k' = true ∧ currentRoomId k' = Some r'
       else member (roomIdToSocketIds s) id' r') →
  (∀ r, currentRoomId k' = Some r → roomId_rejected (JStr r) = false) →
  (∀ id', is_Some (ua' !! id')
     → if decide (id' = id) then connected k' = true
       else is_Some (userActivity s !! id')) →
  (∀ id' n, names' !! id' = Some n
     → if decide (id' = id) then connected k' = true ∧ validateUserName n = true
       else socketIdToUserName s !! id' = Some n) →
  wf_rooms sio' →
  (∀ id' r', member rooms' id' r' → member sio' id' r') →
  (∀ id' r', member sio' id' r' → member rooms' id' r' ∨ r' = id') →
  (∀ id' r', member sio' id' r'
     → if decide (id' = id) then connected k' = true
       else member (sioRooms s) id' r') →
  Inv (mkState rooms' names' ua' (<[id := k']> (sockets s)) sio').
Proof.
  intros HI Hid Hwf Hmem Hcur Hact Hnames Hswf Hdir Hown Hopen.
  assert (∀ id', id' ≠ id →
    is_connected (mkState rooms' names' ua' (<[id := k']> (sockets s)) sio') id'
    = is_connected s id') as Hconn.
  { intros id' Hne. unfold is_connected. simpl. by rewrite lookup_insert_ne. }
  assert (∀ id', id' ≠ id →
    current_room (mkState rooms' names' ua' (<[id := k']> (sockets s)) sio') id'
    = current_room s id') as Hroom.
  { intros id' Hne. unfold current_room. simpl. by rewrite lookup_insert_ne. }
  split; simpl; try done.
  - intros id' r'. rewrite Hmem. destruct (decide (id' = id)) as [->|Hne].
    + unfold is_connected, current_room. simpl. by rewrite lookup_insert_eq.
    + rewrite Hconn, Hroom by done. apply (inv_member s HI).
  - intros id' r'. destruct (decide (id' = id)) as [->|Hne].
    + unfold current_room. simpl. rewrite lookup_insert_eq. simpl. apply Hcur.
    + rewrite Hroom by done. apply (inv_current s HI).
  - intros id' r' Hs. specialize (Hopen id' r' Hs).
    destruct (decide (id' = id)) as [->|Hne].
    + unfold is_connected. simpl. by rewrite lookup_insert_eq.
    + rewrite Hconn by done. by apply (inv_sio_open s HI id' r').
  - intros id' Hs. specialize (Hact id' Hs). destruct (decide (id' = id)) as [->|Hne].
    + unfold is_connected. simpl. by rewrite lookup_insert_eq.
    + rewrite Hconn by done. by apply (inv_activity s HI).
  - intros id' n Hn. specialize (Hnames id' n Hn).
    destruct (decide (id' = id)) as [->|Hne].
    + unfold is_connected. simpl. by rewrite lookup_insert_eq.
    + rewrite Hconn by done. by apply (inv_names s HI).
  - intros id'. destruct (decide (id' = id)) as [->|Hne]; [done|].
    rewrite lookup_insert_ne by done. apply (inv_ids s HI).
Qed.

(** Handlers that touch the activity records, or the name registry, only. *)
Lemma Inv_with_activity s ua' :
  Inv s →
  (∀ id, is_Some (ua' !! id) → is_Some (userActivity s !! id)) →
  Inv (with_activity ua' s).
Proof.
  intros HI Hact. destruct HI. split; simpl; try done.
  intros id Hs. apply inv_activity0. by apply Hact.
Qed.

Lemma Inv_with_names s names' :
  Inv s →
  (∀ id n, names' !! id = Some n
     → socketIdToUserName s !! id = Some n
       ∨ (is_connected s id = true ∧ validateUserName n = true)) →
  Inv (with_names names' s).
Proof.
  intros HI Hnames. destruct HI. split; simpl; try done.
  intros id n Hn. destruct (Hnames id n Hn) as [H|H]; [|done]. by eapply inv_names0.
Qed.

Lemma alter_as_insert (m : gmap string Socket) f id k :
  m !! id = Some k → alter f id m = <[id := f k]> m.
Proof.
  intros Hk. apply map_eq. intros j. destruct (decide (id = j)) as [<-|Hne].
  - by rewrite lookup_alter_eq, lookup_insert_eq, Hk.
  - by rewrite lookup_alter_ne, lookup_insert_ne.
Qed.

(** ** The state after each handler *)

Lemma directory_add m id r :
  let rooms3 := if Map_has r m then m else Map_set r [] m in
  Map_set r (Set_add id (default [] (Map_get r rooms3))) rooms3 = socket_join id r m.
Proof.
  unfold Map_has, socket_join. destruct (Map_get r m) as [peers|] eqn:E; simpl.
  - by rewrite E.
  - by rewrite Map_get_set_eq, Map_set_set.
Qed.

Lemma on_join_accepted now id r s k ua :
  Inv s → sockets s !! id = Some k → connected k = true →
  roomId_rejected (JStr r) = false →
  checkRoomJoinRate now id (userActivity s) = (true, ua) →
  st (on_join now id (JStr r) s)
  = mkState (socket_join id r (rooms_without id s)) (socketIdToUserName s) ua
      (<[id := mkSocket true (Some r)]> (sockets s))
      (socket_join id r (sio_without id s)).
Proof.
  intros HI Hk Hconn Hrej Hrate. unfold on_join. rewrite Hrej, Hrate. simpl.
  unfold rooms_without, sio_without.
  replace (current_room (with_activity ua s) id) with (current_room s id) by done.
  destruct (current_room s id) as [c|] eqn:Hc.
  - pose proof (current_room_truthy s id c HI Hc) as Ht. simpl in Ht. rewrite Ht.
    simpl. destruct (leave_room id c _) as [s2 o1] eqn:Hl.
    apply (f_equal fst) in Hl. rewrite leave_room_st in Hl. simpl in Hl. subst s2.
    simpl.
    pose proof (directory_add (socket_leave id c (roomIdToSocketIds s)) id r) as Hadd.
    simpl in Hadd. rewrite Hadd.
    unfold set_current_room, with_sockets. simpl.
    rewrite (alter_as_insert _ _ _ k Hk). by rewrite Hconn.
  - simpl.
    pose proof (directory_add (roomIdToSocketIds s) id r) as Hadd.
    simpl in Hadd. rewrite Hadd.
    unfold set_current_room, with_sockets. simpl.
    rewrite (alter_as_insert _ _ _ k Hk). by rewrite Hconn.
Qed.

Lemma member_rooms_without s id id' r' :
  Inv s →
  member (rooms_without id s) id' r'
  ↔ member (roomIdToSocketIds s) id' r' ∧ id' ≠ id.
Proof.
  intros HI. unfold rooms_without. destruct (current_room s id) as [c|] eqn:Hc.
  - rewrite member_socket_leave. split.
    + intros [Hm Hn]. split; [done|]. intros ->. apply Hn. split; [done|].
      apply (inv_member s HI) in Hm as [_ Hm]. congruence.
    + intros [Hm Hn]. split; [done|]. by intros [? _].
  - split; [|tauto]. intros Hm. split; [done|]. intros ->.
    apply (inv_member s HI) in Hm as [_ Hm]. congruence.
Qed.

Lemma wf_rooms_without s id : Inv s → wf_rooms (rooms_without id s).
Proof.
  intros HI. unfold rooms_without. destruct (current_room s id).
  - apply wf_socket_leave, HI.
  - apply HI.
Qed.

Lemma member_sio_without s id id' r' :
  member (sio_without id s) id' r'
  ↔ member (sioRooms s) id' r' ∧ ¬ (id' = id ∧ current_room s id = Some r').
Proof.
  unfold sio_without. destruct (current_room s id) as [c|] eqn:Hc.
  - rewrite member_socket_leave. naive_solver.
  - naive_solver.
Qed.

Lemma wf_sio_without s id : Inv s → wf_rooms (sio_without id s).
Proof.
  intros HI. unfold sio_without. destruct (current_room s id).
  - apply wf_socket_leave, HI.
  - apply HI.
Qed.

Lemma Inv_on_join now id roomId s :
  Inv s → is_connected s id = true → Inv (st (on_join now id roomId s)).
Proof.
  intros HI Hconn.
  destruct (template_throws roomId) eqn:Hthrow.
  { unfold on_join. by rewrite Hthrow. }
  destruct (roomId_rejected roomId) eqn:Hrej.
  { unfold on_join. by rewrite Hthrow, Hrej. }
  destruct roomId as [| | | |r| |]; try done.
  destruct (checkRoomJoinRate now id (userActivity s)) as [ok ua] eqn:Hrate.
  assert (∀ id', is_Some (ua !! id') → is_Some (userActivity s !! id')) as Hua.
  { intros id'. rewrite <- (checkRoomJoinRate_records now id (userActivity s) id').
    by rewrite Hrate. }
  destruct ok.
  - destruct (connected_lookup s id Hconn) as (k & Hk & Hck).
    rewrite (on_join_accepted now id r s k ua HI Hk Hck Hrej Hrate).
    pose proof (inv_member s HI) as Hmem. pose proof (inv_sio_dir s HI) as Hdir.
    pose proof (inv_sio_own s HI) as Hown.
    apply Inv_update; try done.
    + apply (inv_ids s HI). by eexists.
    + apply wf_socket_join. by apply wf_rooms_without.
    + intros id' r'. rewrite member_socket_join, member_rooms_without by done.
      simpl. destruct (decide (id' = id)) as [->|Hne]; naive_solver.
    + simpl. by intros r0 [= <-].
    + intros id' Hs. destruct (decide (id' = id)); [done|]. by apply Hua.
    + intros id' n Hn. destruct (decide (id' = id)) as [->|]; [|done].
      simpl. split; [done|]. by eapply (inv_names s HI).
    + apply wf_socket_join. by apply wf_sio_without.
    + intros id' r'.
      rewrite !member_socket_join, member_rooms_without, member_sio_without by done.
      intros [[Hm Hne]|?]; [|by right]. left. split; [by apply Hdir|]. naive_solver.
    + intros id' r'.
      rewrite !member_socket_join, member_rooms_without, member_sio_without by done.
      intros [[Hm Hn]|?]; [|by left; right].
      destruct (Hown id' r' Hm) as [Hd|?]; [|by right]. left. left. split; [done|].
      intros ->. apply Hn. split; [done|]. by apply Hmem in Hd as [_ ?].
    + intros id' r'. rewrite member_socket_join, member_sio_without.
      destruct (decide (id' = id)) as [->|Hne]; [done|]. naive_solver.
  - unfold on_join. rewrite Hthrow, Hrej, Hrate. simpl.
    by apply Inv_with_activity.
Qed.

Lemma on_leave_accepted id r s k :
  Inv s → sockets s !! id = Some k → roomId_rejected (JStr r) = false →
  on_leave id (JStr r) s
  = returns
      (mkState (socket_leave id r (roomIdToSocketIds s)) (socketIdToUserName s)
         (delete id (userActivity s))
         (<[id := mkSocket (connected k)
                    (if decide (currentRoomId k = Some r) then None
                     else currentRoomId k)]> (sockets s))
         (socket_leave id r (sioRooms s)))
      (if Map_has r (roomIdToSocketIds s)
       then socket_to_emit (sioRooms s) r id (PeerLeft id) else []).
Proof.
  intros HI Hk Hrej. unfold on_leave. rewrite Hrej.
  change (template_throws (JStr r)) with false. cbv iota.
  destruct (leave_room id r s) as [s1 o] eqn:Hl.
  pose proof (f_equal fst Hl) as Hs. pose proof (f_equal snd Hl) as Ho.
  rewrite leave_room_st in Hs. rewrite leave_room_out in Ho. simpl in Hs, Ho.
  subst s1 o. unfold returns. f_equal.
  unfold current_room, set_current_room, with_activity, with_sio, with_sockets.
  simpl. rewrite Hk. simpl.
  destruct (decide (currentRoomId k = Some r)) as [Hc|Hc].
  - rewrite bool_decide_eq_true_2 by done. simpl.
    by rewrite (alter_as_insert _ _ _ k Hk).
  - rewrite bool_decide_eq_false_2 by done. simpl.
    rewrite insert_id; [done|]. rewrite Hk. by destruct k.
Qed.

Lemma Inv_on_leave id roomId s :
  Inv s → is_connected s id = true → Inv (st (on_leave id roomId s)).
Proof.
  intros HI Hconn.
  destruct (template_throws roomId) eqn:Hthrow.
  { unfold on_leave. by rewrite Hthrow. }
  destruct (roomId_rejected roomId) eqn:Hrej.
  { unfold on_leave. by rewrite Hthrow, Hrej. }
  destruct roomId as [| | | |r| |]; try done.
  destruct (connected_lookup s id Hconn) as (k & Hk & Hck).
  rewrite (on_leave_accepted id r s k HI Hk Hrej). simpl.
  assert (∀ r', member (roomIdToSocketIds s) id r' ↔ currentRoomId k = Some r') as Hmem.
  { intros r'. rewrite (inv_member s HI). unfold is_connected, current_room.
    rewrite Hk. simpl. naive_solver. }
  pose proof (inv_sio_dir s HI) as Hdir. pose proof (inv_sio_own s HI) as Hown.
  apply Inv_update; try done.
  - apply (inv_ids s HI). by eexists.
  - apply wf_socket_leave, HI.
  - intros id' r'. rewrite member_socket_leave. simpl.
    destruct (decide (id' = id)) as [->|Hne]; [|naive_solver].
    rewrite Hmem. destruct (decide (currentRoomId k = Some r)); naive_solver.
  - simpl. intros r0 Hr0. apply (inv_current s HI id). unfold current_room.
    rewrite Hk. simpl. by destruct (decide (currentRoomId k = Some r)).
  - intros id' Hs. destruct (decide (id' = id)) as [->|Hne].
    + rewrite lookup_delete_eq in Hs. by destruct Hs.
    + by rewrite lookup_delete_ne in Hs.
  - intros id' n Hn. destruct (decide (id' = id)) as [->|]; [|done].
    simpl. split; [done|]. by eapply (inv_names s HI).
  - apply wf_socket_leave, HI.
  - intros id' r'. rewrite !member_socket_leave. naive_solver.
  - intros id' r'. rewrite !member_socket_leave. naive_solver.
  - intros id' r'. rewrite member_socket_leave.
    destruct (decide (id' = id)) as [->|Hne]; [done|]. naive_solver.
Qed.

Lemma disconnect_result id s k :
  Inv s → sockets s !! id = Some k →
  disconnect id s
  = returns
      (mkState (rooms_without id s) (delete id (socketIdToUserName s))
         (delete id (userActivity s))
         (<[id := mkSocket false (currentRoomId k)]> (sockets s))
         (socket_leave_all id (sioRooms s)))
      (match current_room s id with
       | Some c =>
           if Map_has c (roomIdToSocketIds s)
           then socket_to_emit (socket_leave_all id (sioRooms s)) c id (PeerLeft id)
           else []
       | None => []
       end).
Proof.
  intros HI Hk. unfold disconnect, on_disconnect.
  assert (current_room (transport_close id s) id = current_room s id) as ->.
  { unfold current_room, transport_close. simpl. rewrite lookup_alter_eq, Hk. done. }
  assert (sockets (transport_close id s)
          = <[id := mkSocket false (currentRoomId k)]> (sockets s)) as Hsock.
  { unfold transport_close. simpl.
    by apply (alter_as_insert _ (λ k0, mkSocket false (currentRoomId k0)) _ k). }
  unfold rooms_without in *. destruct (current_room s id) as [c|] eqn:Hc.
  - pose proof (current_room_truthy s id c HI Hc) as Ht. rewrite Ht.
    destruct (leave_room id c (transport_close id s)) as [s1 o] eqn:Hl.
    pose proof (f_equal fst Hl) as Hs. pose proof (f_equal snd Hl) as Ho.
    rewrite leave_room_st in Hs. rewrite leave_room_out in Ho. simpl in Hs, Ho.
    subst s1 o. unfold returns. f_equal.
    unfold with_activity, with_names, with_rooms. simpl.
    by rewrite <- Hsock.
  - unfold returns. f_equal. unfold with_activity, with_names. simpl.
    by rewrite <- Hsock.
Qed.

Lemma Inv_disconnect id s :
  Inv s → is_connected s id = true → Inv (st (disconnect id s)).
Proof.
  intros HI Hconn. destruct (connected_lookup s id Hconn) as (k & Hk & Hck).
  rewrite (disconnect_result id s k HI Hk). simpl.
  pose proof (inv_sio_dir s HI) as Hdir. pose proof (inv_sio_own s HI) as Hown.
  destruct (inv_sio_rooms s HI) as [Hkeys _].
  apply Inv_update; try done.
  - apply (inv_ids s HI). by eexists.
  - by apply wf_rooms_without.
  - intros id' r'. rewrite member_rooms_without by done. simpl.
    destruct (decide (id' = id)); naive_solver.
  - simpl. intros r0 Hr0. apply (inv_current s HI id). unfold current_room.
    by rewrite Hk.
  - intros id' Hs. destruct (decide (id' = id)) as [->|Hne].
    + rewrite lookup_delete_eq in Hs. by destruct Hs.
    + by rewrite lookup_delete_ne in Hs.
  - intros id' n Hn. destruct (decide (id' = id)) as [->|Hne].
    + by rewrite lookup_delete_eq in Hn.
    + by rewrite lookup_delete_ne in Hn.
  - apply wf_socket_leave_all, HI.
  - intros id' r'. rewrite member_rooms_without, member_socket_leave_all by done.
    naive_solver.
  - intros id' r'. rewrite member_rooms_without, member_socket_leave_all by done.
    naive_solver.
  - intros id' r'. rewrite member_socket_leave_all by done.
    destruct (decide (id' = id)); naive_solver.
Qed.

Lemma Inv_on_connection now id s :
  Inv s → sockets s !! id = None → id ≠ "" →
  Inv (st (on_connection now id (transport_open id s))).
Proof.
  intros HI Hk Hid. unfold on_connection, transport_open, returns, with_sockets,
    with_activity, with_sio, initializeUserActivity. simpl.
  assert (is_connected s id = false) as Hnc by (unfold is_connected; by rewrite Hk).
  pose proof (inv_sio_dir s HI) as Hdir. pose proof (inv_sio_own s HI) as Hown.
  apply Inv_update; try done.
  - apply HI.
  - intros id' r'. simpl. destruct (decide (id' = id)) as [->|Hne]; [|done].
    rewrite (inv_member s HI), Hnc. naive_solver.
  - intros id' Hs. destruct (decide (id' = id)) as [->|Hne]; [done|].
    by rewrite lookup_insert_ne in Hs.
  - intros id' n Hn. destruct (decide (id' = id)) as [->|Hne]; [|done].
    apply (inv_names s HI) in Hn as [Hn _]. congruence.
  - apply wf_socket_join, HI.
  - intros id' r'. rewrite member_socket_join. naive_solver.
  - intros id' r'. rewrite member_socket_join. naive_solver.
  - intros id' r'. rewrite member_socket_join.
    destruct (decide (id' = id)) as [->|Hne]; [done|]. naive_solver.
Qed.

Lemma on_signal_state id to data s : st (on_signal id to data s) = s.
Proof. unfold on_signal. by repeat case_match. Qed.

Lemma Inv_on_set_user_name id userName s :
  Inv s → is_connected s id = true → Inv (st (on_set_user_name id userName s)).
Proof.
  intros HI Hconn. unfold on_set_user_name.
  destruct (template_throws userName); [done|].
  destruct (validateUserName userName) eqn:Hv; simpl; [|done].
  assert (Inv (with_names (<[id := userName]> (socketIdToUserName s)) s)) as HI'.
  { apply Inv_with_names; [done|]. intros id' n.
    destruct (decide (id = id')) as [<-|Hne].
    - rewrite lookup_insert_eq. intros [= <-]. by right.
    - rewrite lookup_insert_ne by done. by left. }
  repeat case_match; simpl; done.
Qed.

Lemma Inv_on_chat_message now id text timestamp s :
  Inv s → Inv (st (on_chat_message now id text timestamp s)).
Proof.
  intros HI. unfold on_chat_message.
  destruct (template_throws text); [done|].
  destruct (validateMessage text); simpl; [|done].
  destruct (checkMessageRate now id (userActivity s)) as [ok ua] eqn:Hrate.
  assert (Inv (with_activity ua s)) as HI'.
  { apply Inv_with_activity; [done|]. intros id'.
    rewrite <- (checkMessageRate_records now id (userActivity s) id').
    by rewrite Hrate. }
  repeat case_match; simpl; done.
Qed.

Lemma Inv_initial : Inv initial.
Proof.
  split; simpl; try done.
  - split; [apply NoDup_nil_2|done].
  - intros id r. split; [by intros (? & ? & ?)|]. by intros [? ?].
  - split; [apply NoDup_nil_2|done].
  - intros id r (? & ? & ?). done.
  - intros id r (? & ? & ?). done.
  - intros id [? ?]. done.
  - intros id [? ?]. done.
Qed.

Lemma Inv_dispatch now s ev : Inv s → Inv (st (dispatch now s ev)).
Proof.
  intros HI. unfold dispatch.
  destruct ev as [id|id roomId|id roomId|id|id to data|id userName|id a text ts];
    simpl.
  - destruct (String.eqb_spec id ""); simpl; [done|].
    case_bool_decide as Hs; [done|].
    apply Inv_on_connection; [done| |done].
    destruct (sockets s !! id) eqn:E; [|done]. exfalso. apply Hs. by eexists.
  - destruct (is_connected s id) eqn:Hc; simpl; [|done]. by apply Inv_on_join.
  - destruct (is_connected s id) eqn:Hc; simpl; [|done]. by apply Inv_on_leave.
  - destruct (is_connected s id) eqn:Hc; simpl; [|done]. by apply Inv_disconnect.
  - destruct (is_connected s id) eqn:Hc; simpl; [|done]. by rewrite on_signal_state.
  - destruct (is_connected s id) eqn:Hc; simpl; [|done].
    by apply Inv_on_set_user_name.
  - destruct (is_connected s id) eqn:Hc; simpl; [|done].
    by apply Inv_on_chat_message.
Qed.

Lemma reachable_Inv s : reachable s → Inv s.
Proof.
  induction 1 as [|now s ev _ IH]; [apply Inv_initial|by apply Inv_dispatch].
Qed.

Lemma reachable_run s evs : reachable s → reachable (run s evs).
Proof.
  revert s. induction evs as [|[now ev] evs IH]; intros s Hs; simpl; [done|].
  apply IH. by constructor.
Qed.

(** ** Room identifiers *)

Lemma is_room_char_spec c : is_room_char c = true ↔ RoomIdChar c.
Proof.
  unfold is_room_char, RoomIdChar, is_lower, is_upper, is_digit, in_range.
  rewrite !orb_true_iff, !andb_true_iff, !N.leb_le, !N.eqb_eq.
  assert (code c = 95%N ↔ c = "_"%char) as ->.
  { split; [|by intros ->]. intros H. rewrite <- (ascii_N_embedding c).
    unfold code in H. by rewrite H. }
  assert (code c = 45%N ↔ c = "-"%char) as ->.
  { split; [|by intros ->]. intros H. rewrite <- (ascii_N_embedding c).
    unfold code in H. by rewrite H. }
  tauto.
Qed.

Lemma roomId_accepted_spec v :
  roomId_rejected v = false
  ↔ ∃ r, v = JStr r ∧ (3 ≤ String.length r ≤ 32)%nat
         ∧ Forall RoomIdChar (list_ascii_of_string r).
Proof.
  split.
  - destruct v as [| | | |r| |]; try done. unfold roomId_rejected.
    rewrite !orb_false_iff. intros [[[_ H3] H32] Hch]. exists r.
    apply Nat.ltb_ge in H3, H32. split; [done|]. split; [lia|].
    apply Forall_forall. intros c Hc. apply is_room_char_spec.
    destruct (is_room_char c) eqn:E; [done|]. exfalso.
    assert (existsb (λ c, negb (is_room_char c)) (list_ascii_of_string r) = true)
      as Hex; [|congruence].
    apply existsb_exists. exists c. split; [by apply list_elem_of_In|].
    by rewrite E.
  - intros (r & -> & [H3 H32] & Hch). unfold roomId_rejected.
    rewrite !orb_false_iff. split_and!.
    + apply negb_false_iff. simpl. apply negb_true_iff.
      destruct r; [simpl in H3; lia|done].
    + apply Nat.ltb_ge. lia.
    + apply Nat.ltb_ge. lia.
    + apply not_true_is_false. intros (c & Hc & Hn)%existsb_exists.
      apply list_elem_of_In in Hc. rewrite Forall_forall in Hch.
      apply Hch, is_room_char_spec in Hc. by rewrite Hc in Hn.
Qed.

(** C8, at the failing input: an open connection sends [join] with an
    object that has a property [toString] of its own.  The guard rejects
    the value, but the log line in front of the guard converts it to a
    string and throws: the state is as before and the sender gets no
    error of type [room]. *)
Theorem join_unprintable_roomId_throws :
  roomId_rejected (JUnprintable "{toString: 1}") = true
  ∧ dispatch 50 three_in_room (Join "A" (JUnprintable "{toString: 1}"))
    = mkResult three_in_room [] true.
Proof. split; reflexivity. Qed.

(** ** Signalling *)

Lemma find_target_room_same_room s a b :
  Inv s →
  match find_target_room a (JStr b) (roomIdToSocketIds s) with
  | Some r => same_room s a b ∧ truthy (JStr r) = true
  | None => ¬ same_room s a b
  end.
Proof.
  intros HI. unfold find_target_room.
  destruct (List.find _ (roomIdToSocketIds s)) as [[r peers]|] eqn:E; simpl.
  - apply find_some in E as [Hin Hp]. apply list_elem_of_In in Hin.
    apply andb_true_iff in Hp as [Ha Hb]. simpl in Ha, Hb.
    apply Set_has_true in Ha, Hb.
    apply (Map_elem_of_get _ _ _ (proj1 (inv_rooms s HI))) in Hin.
    assert (member (roomIdToSocketIds s) a r) as Hma by (by exists peers).
    split; [exists r; split; [done|by exists peers]|].
    apply (inv_member s HI) in Hma as [_ Hc].
    by apply (current_room_truthy s a r).
  - intros (r & (pa & Hga & Ha) & (pb & Hgb & Hb)).
    assert (pb = pa) as -> by congruence.
    apply Map_get_elem_of, list_elem_of_In in Hga.
    apply (find_none _ _ E) in Hga. simpl in Hga.
    apply andb_false_iff in Hga as [H|H];
      apply not_true_iff_false in H; apply H; by apply Set_has_true.
Qed.

(** C1, at the failing input: [A] and [B] are members of one room and
    [A] sends [B] a signal whose payload is [null] or [undefined].  The
    log line that reads [data.type] throws before the forward: [B]
    receives nothing although the two share a room, and [A] is told
    nothing. *)
Theorem signal_without_payload_not_forwarded :
  same_room three_in_room "A" "B"
  ∧ dispatch 50 three_in_room (Signal "A" (JStr "B") JNull)
    = mkResult three_in_room [] true
  ∧ dispatch 50 three_in_room (Signal "A" (JStr "B") JUndefined)
    = mkResult three_in_room [] true.
Proof.
  split; [|split; reflexivity].
  exists "room_1". split; exists ["A"; "B"; "C"]; (split; [reflexivity|]);
    apply list_elem_of_In; simpl; auto.
Qed.

(** ** The room directory *)

Lemma Inv_entries_nonempty s r peers :
  Inv s → (r, peers) ∈ roomIdToSocketIds s → peers ≠ [].
Proof.
  intros HI Hin. destruct (inv_rooms s HI) as [Hk Hm].
  apply (Map_elem_of_get _ _ _ Hk) in Hin. by apply (Hm r peers).
Qed.

Lemma socket_leave_last m id r : Map_get r m = Some [id] → Map_get r (socket_leave id r m) = None.
Proof.
  intros Hg. unfold socket_leave. rewrite Hg. unfold Set_delete.
  rewrite filter_cons, decide_False by (intros ?; done). simpl.
  apply Map_get_delete_eq.
Qed.

(** C2: after any event dispatched in a reachable state (in particular
    after a join, a leave or a disconnect) no entry of the room directory
    has an empty member set: a room without members has no entry, and
    the leave, the disconnect or the move to another room of the last
    member of a room deletes its entry in that same step. *)
Theorem no_empty_room_after_any_event now s ev :
  reachable s →
  let s' := st (dispatch now s ev) in
  (∀ r peers, (r, peers) ∈ roomIdToSocketIds s' → peers ≠ [])
  ∧ (∀ r, (∀ id, ¬ member (roomIdToSocketIds s') id r)
          → Map_get r (roomIdToSocketIds s') = None)
  ∧ (∀ id r, Map_get r (roomIdToSocketIds s) = Some [id]
             → ev = Leave id (JStr r) ∨ ev = Disconnect id
               ∨ (∃ r', ev = Join id (JStr r') ∧ r' ≠ r
                        ∧ roomId_rejected (JStr r') = false
                        ∧ (checkRoomJoinRate now id (userActivity s)).1 = true)
             → Map_get r (roomIdToSocketIds s') = None).
Proof.
  intros Hreach s'. pose proof (reachable_Inv s Hreach) as HI.
  assert (Inv s') as HI' by (by apply Inv_dispatch).
  split_and!.
  - intros r peers. by apply Inv_entries_nonempty.
  - intros r Hno. destruct (Map_get r (roomIdToSocketIds s')) as [peers|] eqn:Hg; [|done].
    destruct (inv_rooms s' HI') as [_ Hm]. destruct (Hm r peers Hg) as [Hne _].
    destruct peers as [|p peers]; [done|]. exfalso. apply (Hno p).
    exists (p :: peers). split; [done|left].
  - intros id r Hg Hev.
    assert (member (roomIdToSocketIds s) id r) as Hmem.
    { exists [id]. split; [done|left]. }
    apply (inv_member s HI) in Hmem as [Hconn Hcur].
    destruct (connected_lookup s id Hconn) as (k & Hk & Hck).
    subst s'.
    destruct Hev as [-> | [-> | (r' & -> & Hne & Hrej & Hrate)]];
      unfold dispatch; simpl; rewrite Hconn; simpl.
    + rewrite (on_leave_accepted id r s k HI Hk (inv_current s HI id r Hcur)). simpl.
      by apply socket_leave_last.
    + rewrite (disconnect_result id s k HI Hk). simpl. unfold rooms_without.
      rewrite Hcur. by apply socket_leave_last.
    + destruct (checkRoomJoinRate now id (userActivity s)) as [ok ua] eqn:Hr.
      simpl in Hrate. subst ok.
      rewrite (on_join_accepted now id r' s k ua HI Hk Hck Hrej Hr). simpl.
      unfold socket_join. rewrite Map_get_set_ne by done.
      unfold rooms_without. rewrite Hcur. by apply socket_leave_last.
Qed.

Lemma no_empty_room_after_any_event_witness :
  Map_get "room_1"
    (roomIdToSocketIds (st (dispatch 50 two_rooms (Leave "A" (JStr "room_1")))))
  = None.
Proof.
  apply (no_empty_room_after_any_event 50 two_rooms (Leave "A" (JStr "room_1")))
    with (id := "A").
  - apply reachable_run, reachable_initial.
  - reflexivity.
  - left. reflexivity.
Defined.

(** ** The message-rate limiter *)

Lemma checkMessageRate_keeps_lastActivity now id ua a a' :
  ua !! id = Some a → (checkMessageRate now id ua).2 !! id = Some a' →
  lastActivity a' = lastActivity a.
Proof.
  intros Ha. unfold checkMessageRate. rewrite Ha.
  repeat case_match; simpl; rewrite ?lookup_insert_eq, ?Ha;
    intros [= <-]; done.
Qed.

(** What the limiter does with an existing record: the spacing is
    measured from [lastActivity], the window count and the window reset
    are as configured, and an accepted message increments the count and
    leaves [lastActivity] as it was. *)
Lemma checkMessageRate_window now id ua a :
  ua !! id = Some a →
  let expired := now - lastMessageReset a >? 60000 in
  let count := if expired then 0 else messageCount a in
  let start := if expired then now else lastMessageReset a in
  (now - lastActivity a < 1000 → checkMessageRate now id ua = (false, ua))
  ∧ (1000 ≤ now - lastActivity a → 10 ≤ count
     → (checkMessageRate now id ua).1 = false)
  ∧ (1000 ≤ now - lastActivity a → count < 10
     → checkMessageRate now id ua
       = (true,
          <[id := mkActivity (lastActivity a) (count + 1) start
                    (roomJoins a) (lastRoomJoinReset a)]> ua)).
Proof.
  intros Ha expired count start. subst expired count start.
  unfold checkMessageRate, BOT_PROTECTION.MIN_TIME_BETWEEN_MESSAGES,
    BOT_PROTECTION.MAX_MESSAGES_PER_MINUTE.
  rewrite Ha. split_and!.
  - intros H. apply Z.ltb_lt in H. by rewrite H.
  - intros H1 H2. apply Z.ltb_ge in H1. rewrite H1.
    destruct (now - lastMessageReset a >? 60000); simpl in *.
    + lia.
    + apply Z.geb_le in H2. by rewrite H2.
  - intros H1 H2. apply Z.ltb_ge in H1. rewrite H1.
    destruct (now - lastMessageReset a >? 60000); simpl in *; [done|].
    assert ((messageCount a >=? 10) = false) as ->; [|by destruct a].
    rewrite Z.geb_leb. apply Z.leb_gt. lia.
Qed.

(** C3, at the failing input: a connection opened at time 0 sends a chat
    message at 5000 ms and another at 5001 ms.  Both pass the limiter and
    are broadcast, although they are 1 ms apart: an accepted message
    leaves [lastActivity] at the time of the connection. *)
Theorem message_spacing_not_enforced :
  let s1 := st (dispatch 5000 three_in_room
                  (ChatMessage "B" JUndefined (JStr "hello") (JNum 5000))) in
  out (dispatch 5000 three_in_room
         (ChatMessage "B" JUndefined (JStr "hello") (JNum 5000)))
  = [("A", ChatMessageEv (JStr Msg.guest) (JStr "hello") (JNum 5000));
     ("C", ChatMessageEv (JStr Msg.guest) (JStr "hello") (JNum 5000))]
  ∧ out (dispatch 5001 s1 (ChatMessage "B" JUndefined (JStr "again") (JNum 5001)))
    = [("A", ChatMessageEv (JStr Msg.guest) (JStr "again") (JNum 5001));
       ("C", ChatMessageEv (JStr Msg.guest) (JStr "again") (JNum 5001))]
  ∧ lastActivity <$> (userActivity s1 !! "B") = Some 0
  ∧ messageCount <$> (userActivity s1 !! "B") = Some 1.
Proof. vm_compute. done. Qed.

(** ** Chat messages *)


Lemma elem_of_socket_to_emit sio room sender ev rcpt ev' :
  (rcpt, ev') ∈ socket_to_emit sio room sender ev
  ↔ ev' = ev ∧ rcpt ≠ sender ∧ member sio rcpt room.
Proof.
  unfold socket_to_emit, member. rewrite list_elem_of_fmap. split.
  - intros (p & [= -> ->] & [Hne Hin]%list_elem_of_filter).
    split; [done|]. split; [done|].
    destruct (Map_get room sio) as [peers|]; [by exists peers|].
    by apply elem_of_nil in Hin.
  - intros (-> & Hne & peers & Hg & Hin). exists rcpt. split; [done|].
    apply list_elem_of_filter. split; [done|]. by rewrite Hg.
Qed.


Lemma validated_template_ok :
  (∀ v, validateUserName v = true → template_throws v = false)
  ∧ (∀ v, validateMessage v = true → template_throws v = false)
  ∧ (∀ v, roomId_rejected v = false → template_throws v = false).
Proof. split_and!; by intros [| | | |?| |]. Qed.



(** ** Display names *)

Lemma name_check_spec s id c peers userName :
  Inv s → current_room s id = Some c →
  Map_get c (roomIdToSocketIds s) = Some peers →
  existsb
    (λ peerId,
       bool_decide (peerId ≠ id)
       && bool_decide (socketIdToUserName s !! peerId = Some userName))
    peers = true
  ↔ name_taken s id userName.
Proof.
  intros HI Hc Hg. rewrite existsb_exists. unfold name_taken. split.
  - intros (p & Hin%list_elem_of_In & Hp). apply andb_true_iff in Hp as [Hne Hn].
    apply bool_decide_eq_true in Hne, Hn. exists c, p. split_and!; try done.
    by exists peers.
  - intros (c' & p & Hc' & (ps & Hg' & Hin) & Hne & Hn).
    assert (c' = c) as -> by congruence. assert (ps = peers) as -> by congruence.
    exists p. split; [by apply list_elem_of_In|].
    apply andb_true_iff. split; by apply bool_decide_eq_true.
Qed.



(** ** A room after one of its members has left *)

Lemma Map_get_socket_leave_eq m id r :
  Map_get r (socket_leave id r m)
  = match Map_get r m with
    | Some peers =>
        if decide (Set_delete id peers = []) then None
        else Some (Set_delete id peers)
    | None => None
    end.
Proof.
  unfold socket_leave. destruct (Map_get r m) as [peers|] eqn:Hg; [|done].
  destruct (Nat.eqb_spec (List.length (Set_delete id peers)) 0) as [Hz|Hnz].
  - rewrite Map_get_delete_eq. apply nil_length_inv in Hz.
    by rewrite decide_True.
  - rewrite Map_get_set_eq, decide_False; [done|]. intros E. by rewrite E in Hnz.
Qed.

(** ** Which connections and activity records a handler touches *)

Lemma on_join_frame now id roomId s :
  Inv s → is_connected s id = true →
  let s' := st (on_join now id roomId s) in
  (∀ id', is_connected s' id' = is_connected s id')
  ∧ (∀ id', is_Some (sockets s' !! id') ↔ is_Some (sockets s !! id'))
  ∧ (∀ id', is_Some (userActivity s' !! id') ↔ is_Some (userActivity s !! id')).
Proof.
  intros HI Hconn s'. subst s'.
  destruct (template_throws roomId) eqn:Hthrow.
  { unfold on_join. by rewrite Hthrow. }
  destruct (roomId_rejected roomId) eqn:Hrej.
  { unfold on_join. by rewrite Hthrow, Hrej. }
  destruct roomId as [| | | |r| |]; try done.
  destruct (checkRoomJoinRate now id (userActivity s)) as [ok ua] eqn:Hrate.
  assert (∀ id', is_Some (ua !! id') ↔ is_Some (userActivity s !! id')) as Hua.
  { intros id'. rewrite <- (checkRoomJoinRate_records now id (userActivity s) id').
    by rewrite Hrate. }
  destruct ok.
  - destruct (connected_lookup s id Hconn) as (k & Hk & Hck).
    rewrite (on_join_accepted now id r s k ua HI Hk Hck Hrej Hrate). simpl.
    split_and!; [| |done].
    + intros id'. unfold is_connected. simpl.
      destruct (decide (id = id')) as [<-|Hne].
      * by rewrite lookup_insert_eq, Hk.
      * by rewrite lookup_insert_ne.
    + intros id'. apply insert_existing_is_Some. by eexists.
  - unfold on_join. rewrite Hthrow, Hrej, Hrate. simpl. done.
Qed.

Lemma on_leave_frame id roomId s :
  Inv s → is_connected s id = true →
  let s' := st (on_leave id roomId s) in
  (∀ id', is_connected s' id' = is_connected s id')
  ∧ (∀ id', is_Some (sockets s' !! id') ↔ is_Some (sockets s !! id'))
  ∧ userActivity s'
    = if roomId_rejected roomId then userActivity s else delete id (userActivity s).
Proof.
  intros HI Hconn s'. subst s'.
  destruct (template_throws roomId) eqn:Hthrow.
  { unfold on_leave. rewrite Hthrow. by destruct roomId. }
  destruct (roomId_rejected roomId) eqn:Hrej.
  { unfold on_leave. by rewrite Hthrow, Hrej. }
  destruct roomId as [| | | |r| |]; try done.
  destruct (connected_lookup s id Hconn) as (k & Hk & Hck).
  rewrite (on_leave_accepted id r s k HI Hk Hrej). simpl.
  split_and!; [| |done].
  - intros id'. unfold is_connected. simpl.
    destruct (decide (id = id')) as [<-|Hne].
    + by rewrite lookup_insert_eq, Hk.
    + by rewrite lookup_insert_ne.
  - intros id'. apply insert_existing_is_Some. by eexists.
Qed.

Lemma disconnect_frame id s :
  Inv s → is_connected s id = true →
  let s' := st (disconnect id s) in
  (∀ id', is_connected s' id' = if decide (id' = id) then false else is_connected s id')
  ∧ (∀ id', is_Some (sockets s' !! id') ↔ is_Some (sockets s !! id'))
  ∧ userActivity s' = delete id (userActivity s).
Proof.
  intros HI Hconn s'. subst s'.
  destruct (connected_lookup s id Hconn) as (k & Hk & Hck).
  rewrite (disconnect_result id s k HI Hk). simpl.
  split_and!; [| |done].
  - intros id'. unfold is_connected. simpl.
    destruct (decide (id' = id)) as [->|Hne].
    + by rewrite lookup_insert_eq.
    + by rewrite lookup_insert_ne.
  - intros id'. apply insert_existing_is_Some. by eexists.
Qed.

Lemma on_set_user_name_frame id userName s :
  sockets (st (on_set_user_name id userName s)) = sockets s
  ∧ userActivity (st (on_set_user_name id userName s)) = userActivity s.
Proof. unfold on_set_user_name. by repeat case_match. Qed.

Lemma on_chat_message_frame now id text timestamp s :
  let s' := st (on_chat_message now id text timestamp s) in
  sockets s' = sockets s
  ∧ (∀ id', is_Some (userActivity s' !! id') ↔ is_Some (userActivity s !! id')).
Proof.
  unfold on_chat_message. destruct (template_throws text); [done|].
  destruct (validateMessage text); simpl; [|done].
  destruct (checkMessageRate now id (userActivity s)) as [ok ua] eqn:Hrate.
  assert (∀ id', is_Some (ua !! id') ↔ is_Some (userActivity s !! id')) as Hua.
  { intros id'. rewrite <- (checkMessageRate_records now id (userActivity s) id').
    by rewrite Hrate. }
  by repeat case_match.
Qed.

Lemma is_connected_same_sockets s s' id :
  sockets s' = sockets s → is_connected s' id = is_connected s id.
Proof. unfold is_connected. by intros ->. Qed.



(** ** Disconnecting *)



(** ** Activity records *)

Lemma is_Some_None_iff {V} (m m' : gmap string V) id :
  (is_Some (m' !! id) ↔ is_Some (m !! id)) → m !! id = None → m' !! id = None.
Proof.
  intros H Hn. destruct (m' !! id) eqn:E; [|done].
  assert (is_Some (m !! id)) as [? ?] by (apply H; by eexists). congruence.
Qed.

Lemma dispatch_keeps_absent_record now s ev id :
  Inv s → is_Some (sockets s !! id) → userActivity s !! id = None →
  let s' := st (dispatch now s ev) in
  is_Some (sockets s' !! id) ∧ userActivity s' !! id = None.
Proof.
  intros HI Hsock Hnone s'. subst s'. unfold dispatch.
  destruct ev as [i|i roomId|i roomId|i|i to data|i userName|i a text ts]; simpl.
  - destruct (String.eqb i ""); simpl; [done|]. case_bool_decide as Hs; [done|].
    simpl. assert (i ≠ id) as Hne by (by intros ->).
    unfold initializeUserActivity. by rewrite !lookup_insert_ne.
  - destruct (is_connected s i) eqn:Hc; simpl; [|done].
    destruct (on_join_frame now i roomId s HI Hc) as (_ & Hs & Hu).
    split; [by apply Hs|]. by apply (is_Some_None_iff (userActivity s)).
  - destruct (is_connected s i) eqn:Hc; simpl; [|done].
    destruct (on_leave_frame i roomId s HI Hc) as (_ & Hs & Hu).
    split; [by apply Hs|]. rewrite Hu.
    destruct (roomId_rejected roomId); [done|]. apply lookup_delete_None. by right.
  - destruct (is_connected s i) eqn:Hc; simpl; [|done].
    destruct (disconnect_frame i s HI Hc) as (_ & Hs & Hu).
    split; [by apply Hs|]. rewrite Hu. apply lookup_delete_None. by right.
  - destruct (is_connected s i) eqn:Hc; simpl; [|done]. by rewrite on_signal_state.
  - destruct (is_connected s i) eqn:Hc; simpl; [|done].
    destruct (on_set_user_name_frame i userName s) as [-> ->]. done.
  - destruct (is_connected s i) eqn:Hc; simpl; [|done].
    destruct (on_chat_message_frame now i text ts s) as [Hs Hu].
    split; [by rewrite Hs|]. by apply (is_Some_None_iff (userActivity s)).
Qed.

Lemma no_record_chat_not_limited now s id a text timestamp rcpt :
  userActivity s !! id = None →
  (rcpt, ErrorEv "chat" Msg.message_rate)
    ∉ out (dispatch now s (ChatMessage id a text timestamp)).
Proof.
  intros Hnone. unfold dispatch. simpl.
  destruct (is_connected s id); simpl; [|apply not_elem_of_nil].
  unfold on_chat_message, checkMessageRate. rewrite Hnone.
  destruct (template_throws text); [apply not_elem_of_nil|].
  destruct (validateMessage text); simpl.
  - replace (current_room (with_activity (userActivity s) s) id)
      with (current_room s id) by done.
    destruct (current_room s id) as [c|]; simpl; [|apply not_elem_of_nil].
    destruct (negb (c =? "")%string); simpl; [|apply not_elem_of_nil].
    by intros (? & _)%elem_of_socket_to_emit.
  - unfold socket_emit. rewrite list_elem_of_singleton. intros H.
    injection H as _ H. vm_compute in H. discriminate.
Qed.

Lemma no_record_join_not_limited now s id roomId rcpt :
  userActivity s !! id = None →
  (rcpt, ErrorEv "room" Msg.join_rate) ∉ out (dispatch now s (Join id roomId)).
Proof.
  intros Hnone. unfold dispatch. simpl.
  destruct (is_connected s id); simpl; [|apply not_elem_of_nil].
  assert (∀ m, (rcpt, ErrorEv "room" Msg.join_rate)
               ∉ socket_emit m (ErrorEv "room" Msg.bad_room)) as Hbad.
  { intros m. unfold socket_emit. rewrite list_elem_of_singleton. intros H.
    injection H as _ H. vm_compute in H. discriminate. }
  unfold on_join, checkRoomJoinRate. rewrite Hnone.
  destruct (template_throws roomId); [apply not_elem_of_nil|].
  destruct (roomId_rejected roomId); [apply Hbad|].
  destruct roomId as [| | | |r| |]; try apply Hbad. simpl.
  destruct (match current_room (with_activity (userActivity s) s) id with
            | Some c => _ | None => _ end) as [s2 o1] eqn:Hleave.
  assert (∀ ev, (rcpt, ev) ∈ o1 → ev = PeerLeft id) as Ho1.
  { intros ev Hin.
    destruct (current_room (with_activity (userActivity s) s) id) as [c|].
    - simpl in Hleave. destruct (negb (c =? "")%string).
      + apply (f_equal snd) in Hleave. rewrite leave_room_out in Hleave.
        simpl in Hleave. subst o1.
        destruct (Map_has c (roomIdToSocketIds s)); [|by apply elem_of_nil in Hin].
        by apply elem_of_socket_to_emit in Hin as (-> & _).
      + injection Hleave as _ <-. by apply elem_of_nil in Hin.
    - injection Hleave as _ <-. by apply elem_of_nil in Hin. }
  simpl. intros [Hin|Hin]%elem_of_app.
  - by apply Ho1 in Hin.
  - apply elem_of_cons in Hin as [Hin|Hin]; [done|].
    by apply elem_of_socket_to_emit in Hin as (? & _).
Qed.

(** C10: without an activity record both rate checks accept and change
    nothing.  Hence, once the record of an open connection is gone, it
    stays gone whatever events follow, every later chat message and join
    of that connection passes both checks, and neither is ever answered
    with a rate-limit error. *)
Theorem no_record_no_rate_limit :
  (∀ now id (ua : gmap string Activity),
     ua !! id = None →
     checkMessageRate now id ua = (true, ua)
     ∧ checkRoomJoinRate now id ua = (true, ua))
  ∧ (∀ s id evs,
       reachable s → is_connected s id = true → userActivity s !! id = None →
       let s' := run s evs in
       userActivity s' !! id = None
       ∧ ∀ now,
           checkMessageRate now id (userActivity s') = (true, userActivity s')
           ∧ checkRoomJoinRate now id (userActivity s') = (true, userActivity s')
           ∧ (∀ a text timestamp rcpt,
                (rcpt, ErrorEv "chat" Msg.message_rate)
                  ∉ out (dispatch now s' (ChatMessage id a text timestamp)))
           ∧ (∀ roomId rcpt,
                (rcpt, ErrorEv "room" Msg.join_rate)
                  ∉ out (dispatch now s' (Join id roomId)))).
Proof.
  assert (∀ now id (ua : gmap string Activity),
     ua !! id = None →
     checkMessageRate now id ua = (true, ua)
     ∧ checkRoomJoinRate now id ua = (true, ua)) as Hchecks.
  { intros now id ua Hn. unfold checkMessageRate, checkRoomJoinRate. by rewrite Hn. }
  split; [done|]. intros s id evs Hreach Hconn Hnone s'.
  assert (userActivity s' !! id = None) as Hn'.
  2:{ split; [done|]. intros now. split_and!.
      - by apply Hchecks.
      - by apply Hchecks.
      - intros. by apply no_record_chat_not_limited.
      - intros. by apply no_record_join_not_limited. }
  subst s'. assert (is_Some (sockets s !! id)) as Hsock.
  { destruct (connected_lookup s id Hconn) as (k & Hk & _). by eexists. }
  clear Hconn. apply reachable_Inv in Hreach.
  revert s Hreach Hsock Hnone. induction evs as [|[now ev] evs IH]; intros s HI Hsock Hnone;
    simpl; [done|].
  destruct (dispatch_keeps_absent_record now s ev id HI Hsock Hnone) as [Hs' Hn'].
  apply IH; [by apply Inv_dispatch|done|done].
Qed.

Lemma no_record_no_rate_limit_witness :
  userActivity
    (run joined_and_left
       [(30, Join "A" (JStr "room_1"));
        (31, ChatMessage "A" JUndefined (JStr "one") (JNum 31))]) !! "A" = None.
Proof.
  apply no_record_no_rate_limit.
  - apply reachable_run, reachable_initial.
  - reflexivity.
  - reflexivity.
Defined.

(** C7, as the code has it: in a reachable state only open connections
    have an activity record.  Every event other than an accepted leave
    keeps the records in step with the open connections; a leave with a
    valid room identifier deletes the record of its sender, which stays
    open. *)
Theorem activity_records_of_connected now s ev :
  reachable s →
  (∀ id, is_Some (userActivity s !! id) → is_connected s id = true)
  ∧ (records_match s
     → (∀ id roomId, ev = Leave id roomId → is_connected s id = true
                     → roomId_rejected roomId = true)
     → records_match (st (dispatch now s ev)))
  ∧ (∀ id roomId, ev = Leave id roomId → is_connected s id = true
                  → roomId_rejected roomId = false
                  → userActivity (st (dispatch now s ev)) !! id = None
                    ∧ is_connected (st (dispatch now s ev)) id = true).
Proof.
  intros Hreach. pose proof (reachable_Inv s Hreach) as HI.
  split; [apply (inv_activity s HI)|]. split.
  - intros Hmatch Hleave. unfold dispatch.
    destruct ev as [i|i roomId|i roomId|i|i to data|i userName|i a text ts]; simpl.
    + destruct (String.eqb i ""); simpl; [done|]. case_bool_decide as Hs; [done|].
      intros id. unfold on_connection, is_connected, initializeUserActivity. simpl.
      destruct (decide (i = id)) as [<-|Hne].
      * rewrite !lookup_insert_eq. split; [done|]. intros _. by eexists.
      * rewrite !lookup_insert_ne by done. apply Hmatch.
    + destruct (is_connected s i) eqn:Hc; simpl; [|done].
      destruct (on_join_frame now i roomId s HI Hc) as (Hcn & _ & Hu).
      intros id. by rewrite Hu, Hcn.
    + destruct (is_connected s i) eqn:Hc; simpl; [|done].
      destruct (on_leave_frame i roomId s HI Hc) as (Hcn & _ & Hu).
      intros id. rewrite Hu, Hcn, (Hleave i roomId eq_refl Hc). apply Hmatch.
    + destruct (is_connected s i) eqn:Hc; simpl; [|done].
      destruct (disconnect_frame i s HI Hc) as (Hcn & _ & Hu).
      intros id. rewrite Hu, Hcn. destruct (decide (id = i)) as [->|Hne].
      * rewrite lookup_delete_eq. split; [by intros [? ?]|done].
      * rewrite lookup_delete_ne by done. apply Hmatch.
    + destruct (is_connected s i) eqn:Hc; simpl; [|done]. by rewrite on_signal_state.
    + destruct (is_connected s i) eqn:Hc; simpl; [|done].
      destruct (on_set_user_name_frame i userName s) as [Hs Hu].
      intros id. rewrite Hu, (is_connected_same_sockets _ _ _ Hs). apply Hmatch.
    + destruct (is_connected s i) eqn:Hc; simpl; [|done].
      destruct (on_chat_message_frame now i text ts s) as [Hs Hu].
      intros id. rewrite Hu, (is_connected_same_sockets _ _ _ Hs). apply Hmatch.
  - intros id roomId -> Hc Hrej. unfold dispatch. simpl. rewrite Hc. simpl.
    destruct (on_leave_frame id roomId s HI Hc) as (Hcn & _ & Hu).
    rewrite Hu, Hcn, Hrej. split; [apply lookup_delete_eq|done].
Qed.

Lemma activity_records_of_connected_witness :
  userActivity (st (dispatch 50 two_rooms (Leave "A" (JStr "room_1")))) !! "A" = None
  ∧ is_connected (st (dispatch 50 two_rooms (Leave "A" (JStr "room_1")))) "A" = true.
Proof.
  apply (activity_records_of_connected 50 two_rooms (Leave "A" (JStr "room_1")))
    with (roomId := JStr "room_1").
  - apply reachable_run, reachable_initial.
  - reflexivity.
  - reflexivity.
  - reflexivity.
Defined.

(** C7, the equivalence as claimed fails: after a leave an open
    connection is without an activity record. *)
Lemma activity_record_missing_after_leave :
  ¬ (∀ s, reachable s →
          ∀ id, is_Some (userActivity s !! id) ↔ is_connected s id = true).
Proof.
  intros H.
  assert (reachable joined_and_left) as Hr by apply reachable_run, reachable_initial.
  destruct (proj2 (H joined_and_left Hr "A") eq_refl) as [a Ha].
  vm_compute in Ha. discriminate.
Qed.

(** ** Leaving and the name registry *)

Lemma on_join_names now id roomId s :
  socketIdToUserName (st (on_join now id roomId s)) = socketIdToUserName s.
Proof.
  unfold on_join. destruct (template_throws roomId); [done|].
  destruct (roomId_rejected roomId); [done|].
  destruct roomId as [| | | |r| |]; try done.
  destruct (checkRoomJoinRate now id (userActivity s)) as [[] ua]; [|done]. simpl.
  destruct (match current_room (with_activity ua s) id with
            | Some c => _ | None => _ end) as [s2 o1] eqn:Hleave.
  simpl. destruct (current_room (with_activity ua s) id) as [c|].
  - simpl in Hleave. destruct (negb (c =? "")%string).
    + apply (f_equal fst) in Hleave. rewrite leave_room_st in Hleave.
      simpl in Hleave. by subst s2.
    + by injection Hleave as <- _.
  - by injection Hleave as <- _.
Qed.

Lemma dispatch_keeps_name now s ev id :
  Inv s → ev ≠ Disconnect id →
  is_Some (socketIdToUserName s !! id) →
  is_Some (socketIdToUserName (st (dispatch now s ev)) !! id).
Proof.
  intros HI Hev Hn. unfold dispatch.
  destruct ev as [i|i roomId|i roomId|i|i to data|i userName|i a text ts]; simpl.
  - destruct (String.eqb i ""); simpl; [done|]. by case_bool_decide.
  - destruct (is_connected s i) eqn:Hc; simpl; [|done]. by rewrite on_join_names.
  - destruct (is_connected s i) eqn:Hc; simpl; [|done].
    unfold on_leave. destruct (template_throws roomId); [done|].
    destruct (roomId_rejected roomId); [done|].
    destruct roomId as [| | | |r| |]; try done.
    destruct (leave_room i r s) as [s1 o] eqn:Hl.
    apply (f_equal fst) in Hl. rewrite leave_room_st in Hl. simpl in Hl. subst s1.
    simpl. by case_bool_decide.
  - destruct (is_connected s i) eqn:Hc; simpl; [|done].
    destruct (connected_lookup s i Hc) as (k & Hk & _).
    rewrite (disconnect_result i s k HI Hk). simpl.
    rewrite lookup_delete_ne; [done|]. congruence.
  - destruct (is_connected s i) eqn:Hc; simpl; [|done]. by rewrite on_signal_state.
  - destruct (is_connected s i) eqn:Hc; simpl; [|done].
    unfold on_set_user_name. repeat case_match; simpl; try done;
      (destruct (decide (i = id)) as [->|Hne];
       [by rewrite lookup_insert_eq|by rewrite lookup_insert_ne]).
  - destruct (is_connected s i) eqn:Hc; simpl; [|done].
    unfold on_chat_message. by repeat case_match.
Qed.

(** C9, as the code has it: an explicit leave does not touch the
    display-name registry, it deletes the activity record of its sender
    when the room identifier is valid.  The entry of a connection in the
    registry is removed by its disconnect and by no other event. *)
Theorem leave_keeps_display_name now s id roomId :
  reachable s → is_connected s id = true →
  socketIdToUserName (st (dispatch now s (Leave id roomId))) = socketIdToUserName s
  ∧ (roomId_rejected roomId = false
     → userActivity (st (dispatch now s (Leave id roomId))) !! id = None)
  ∧ socketIdToUserName (st (dispatch now s (Disconnect id))) !! id = None
  ∧ (∀ now' ev, ev ≠ Disconnect id →
       is_Some (socketIdToUserName s !! id) →
       is_Some (socketIdToUserName (st (dispatch now' s ev)) !! id)).
Proof.
  intros Hreach Hc. pose proof (reachable_Inv s Hreach) as HI.
  split_and!; [| | |intros now' ev; by apply dispatch_keeps_name].
  all: unfold dispatch; simpl; rewrite Hc; simpl.
  all: destruct (connected_lookup s id Hc) as (k & Hk & Hck).
  - destruct (template_throws roomId) eqn:Hthrow.
    { unfold on_leave. by rewrite Hthrow. }
    destruct (roomId_rejected roomId) eqn:Hrej.
    { unfold on_leave. by rewrite Hthrow, Hrej. }
    destruct roomId as [| | | |r| |]; try done.
    by rewrite (on_leave_accepted id r s k HI Hk Hrej).
  - intros Hrej. destruct (on_leave_frame id roomId s HI Hc) as (_ & _ & ->).
    rewrite Hrej. apply lookup_delete_eq.
  - rewrite (disconnect_result id s k HI Hk). simpl. apply lookup_delete_eq.
Qed.

Lemma leave_keeps_display_name_witness :
  socketIdToUserName (st (dispatch 50 three_in_room (Leave "A" (JStr "room_1"))))
  = socketIdToUserName three_in_room
  ∧ socketIdToUserName (st (dispatch 50 three_in_room (Disconnect "A"))) !! "A" = None.
Proof.
  split.
  - apply (leave_keeps_display_name 50 three_in_room "A" (JStr "room_1")).
    + apply reachable_run, reachable_initial.
    + reflexivity.
  - apply (leave_keeps_display_name 50 three_in_room "A" (JStr "room_1")).
    + apply reachable_run, reachable_initial.
    + reflexivity.
Defined.

(** C9, the removal as claimed fails: after an explicit leave the
    registry still holds the name. *)
Lemma leave_does_not_remove_name :
  ¬ (∀ now s id roomId,
       reachable s → is_connected s id = true → roomId_rejected roomId = false →
       socketIdToUserName (st (dispatch now s (Leave id roomId))) !! id = None).
Proof.
  intros H.
  assert (reachable three_in_room) as Hr by apply reachable_run, reachable_initial.
  specialize (H 50 three_in_room "A" (JStr "room_1") Hr eq_refl eq_refl).
  vm_compute in H. discriminate.
Qed.

(** * Further properties *)

(** ** The patterns of the validators *)

Lemma code_inj c d : code c = code d → c = d.
Proof.
  unfold code. intros H.
  rewrite <- (ascii_N_embedding c), <- (ascii_N_embedding d). by rewrite H.
Qed.

Lemma eq_ci_spec c lo up :
  (code up + 32 = code lo)%N → is_upper up = true →
  eq_ci c lo = true ↔ c = lo ∨ c = up.
Proof.
  intros Hcase Hup. unfold eq_ci.
  rewrite orb_true_iff, andb_true_iff, !N.eqb_eq. split.
  - intros [H|[H _]]; [left; by apply code_inj|right].
    apply code_inj. lia.
  - intros [->| ->]; [by left|right]. done.
Qed.

Lemma prefix_len_split p n l :
  (n ≤ prefix_len p l)%nat →
  ∃ mid post, l = (mid ++ post)%list ∧ List.length mid = n
              ∧ Forall (λ c, p c = true) mid.
Proof.
  revert l. induction n as [|n IH]; intros l Hn.
  - exists [], l. by repeat split.
  - destruct l as [|c l]; simpl in Hn; [lia|].
    destruct (p c) eqn:Hc; [|lia].
    destruct (IH l) as (mid & post & -> & Hlen & Hall); [lia|].
    exists (c :: mid), post. split; [done|]. split; [simpl; lia|].
    by constructor.
Qed.

Lemma prefix_len_app p mid post :
  Forall (λ c, p c = true) mid →
  (List.length mid ≤ prefix_len p (mid ++ post))%nat.
Proof.
  induction 1 as [|c mid Hc _ IH]; simpl; [lia|]. rewrite Hc. lia.
Qed.

Lemma has_run_spec p n l : has_run p n l = true ↔ contains_run p n l.
Proof.
  unfold contains_run. split.
  - induction l as [|c l IH]; simpl; rewrite orb_true_iff.
    + intros [H|H]; [|done]. apply Nat.leb_le in H.
      assert (n = 0%nat) as -> by lia. by exists [], [], [].
    + intros [H|H].
      * apply Nat.leb_le in H.
        destruct (prefix_len_split p n (c :: l) H) as (mid & post & -> & ? & ?).
        by exists [], mid, post.
      * destruct (IH H) as (pre & mid & post & -> & ? & ?).
        by exists (c :: pre), mid, post.
  - intros (pre & mid & post & -> & <- & Hall).
    induction pre as [|c pre IH].
    + pose proof (prefix_len_app p mid post Hall) as Hle. simpl.
      destruct (mid ++ post)%list; simpl in *; rewrite orb_true_iff; left;
        by apply Nat.leb_le.
    + simpl. rewrite orb_true_iff. by right.
Qed.

Lemma prefix_len_eqb_split c n l :
  (n ≤ prefix_len (Ascii.eqb c) l)%nat → ∃ post, l = (replicate n c ++ post)%list.
Proof.
  revert l. induction n as [|n IH]; intros l Hn.
  - by exists l.
  - destruct l as [|d l]; simpl in Hn; [lia|].
    destruct (Ascii.eqb_spec c d) as [<-|]; [|lia].
    destruct (IH l) as (post & ->); [lia|]. by exists post.
Qed.

Lemma prefix_len_eqb_replicate c n post :
  (n ≤ prefix_len (Ascii.eqb c) (replicate n c ++ post))%nat.
Proof.
  induction n as [|n IH]; simpl; [lia|]. rewrite Ascii.eqb_refl. lia.
Qed.

Lemma has_repeat_spec l : has_repeat l = true ↔ contains_repeat l.
Proof.
  unfold contains_repeat. split.
  - induction l as [|c l IH]; cbn [has_repeat]; [done|].
    rewrite orb_true_iff, andb_true_iff. intros [[Hdot H]|H].
    + apply Nat.leb_le in H.
      destruct (prefix_len_eqb_split c 10 l H) as (post & ->).
      by exists [], c, post.
    + destruct (IH H) as (pre & d & post & -> & ?). by exists (c :: pre), d, post.
  - intros (pre & c & post & -> & Hdot). induction pre as [|d pre IH].
    + pose proof (prefix_len_eqb_replicate c 10 post) as H.
      apply Nat.leb_le in H. remember (replicate 10 c ++ post)%list as rest.
      replace (replicate 11 c ++ post)%list with (c :: rest)
        by (subst rest; done).
      cbn [app has_repeat]. by rewrite Hdot, H.
    + cbn [app has_repeat]. rewrite IH. apply orb_true_r.
Qed.

Lemma url_tail_spec l :
  url_tail l = true
  ↔ ∃ c post, l = ([":"; "/"; "/"; c] ++ post)%char%list ∧ is_space c = false.
Proof.
  unfold url_tail. destruct l as [|c1 [|c2 [|c3 [|c4 post]]]];
    try (split; [done|by intros (? & ? & [=] & _)]).
  rewrite !andb_true_iff, !Ascii.eqb_eq, negb_true_iff. split.
  - intros [[[-> ->] ->] Hc]. by exists c4, post.
  - by intros (c & post' & [= -> -> -> -> ->] & Hc).
Qed.

Lemma url_here_spec l :
  url_here l = true
  ↔ ∃ h t1 t2 p s c post,
      l = ([h; t1; t2; p] ++ s ++ [":"; "/"; "/"; c] ++ post)%char%list
      ∧ (h = "h" ∨ h = "H")%char ∧ (t1 = "t" ∨ t1 = "T")%char
      ∧ (t2 = "t" ∨ t2 = "T")%char ∧ (p = "p" ∨ p = "P")%char
      ∧ (s = [] ∨ s = ["s"%char] ∨ s = ["S"%char])
      ∧ is_space c = false.
Proof.
  assert (∀ c, eq_ci c "h" = true ↔ (c = "h" ∨ c = "H")%char) as Hh
    by (intros; by apply eq_ci_spec).
  assert (∀ c, eq_ci c "t" = true ↔ (c = "t" ∨ c = "T")%char) as Ht
    by (intros; by apply eq_ci_spec).
  assert (∀ c, eq_ci c "p" = true ↔ (c = "p" ∨ c = "P")%char) as Hp
    by (intros; by apply eq_ci_spec).
  assert (∀ c, eq_ci c "s" = true ↔ (c = "s" ∨ c = "S")%char) as Hs
    by (intros; by apply eq_ci_spec).
  unfold url_here. destruct l as [|h [|t1 [|t2 [|p l]]]];
    try (split; [done|by intros (? & ? & ? & ? & ? & ? & ? & [=] & _)]).
  rewrite !andb_true_iff, orb_true_iff, Hh, !Ht, Hp. split.
  - intros [[[[H1 H2] H3] H4] [Htl|Htl]].
    + apply url_tail_spec in Htl as (c & post & -> & Hc).
      exists h, t1, t2, p, [], c, post. split_and!; try done. by left.
    + destruct l as [|x l]; [done|].
      apply andb_true_iff in Htl as [Hx Htl]. apply Hs in Hx.
      apply url_tail_spec in Htl as (c & post & -> & Hc).
      exists h, t1, t2, p, [x], c, post. split_and!; try done.
      right. destruct Hx as [-> | ->]; [by left|by right].
  - intros (h' & t1' & t2' & p' & s & c & post & Heq & H1 & H2 & H3 & H4 & Hsx & Hc).
    injection Heq as -> -> -> -> ->. split; [done|].
    destruct Hsx as [->|[->| ->]]; simpl app.
    + left. apply url_tail_spec. by exists c, post.
    + right. apply andb_true_iff. split; [apply Hs; by left|].
      apply url_tail_spec. by exists c, post.
    + right. apply andb_true_iff. split; [apply Hs; by right|].
      apply url_tail_spec. by exists c, post.
Qed.

Lemma has_url_spec l : has_url l = true ↔ contains_url l.
Proof.
  unfold contains_url. split.
  - induction l as [|x l IH].
    + cbn [has_url]. rewrite orb_false_r. intros H%url_here_spec.
      destruct H as (h & t1 & t2 & p & s & c & post & [=] & _).
    + cbn [has_url]. rewrite orb_true_iff. intros [H|H].
      * apply url_here_spec in H
          as (h & t1 & t2 & p & s & c & post & -> & H).
        by exists [], h, t1, t2, p, s, c, post.
      * destruct (IH H) as (pre & h & t1 & t2 & p & s & c & post & -> & H').
        by exists (x :: pre), h, t1, t2, p, s, c, post.
  - intros (pre & h & t1 & t2 & p & s & c & post & -> & H).
    induction pre as [|x pre IH].
    + assert (url_here ([h; t1; t2; p] ++ s ++ [":"; "/"; "/"; c] ++ post)%char%list
              = true) as Hhere.
      { apply url_here_spec. by exists h, t1, t2, p, s, c, post. }
      cbn [app] in *. cbn [has_url]. by rewrite Hhere.
    + rewrite <- app_comm_cons. cbn [has_url]. rewrite IH. apply orb_true_r.
Qed.

Lemma drop_spaces_nil l :
  drop_spaces l = [] ↔ Forall (λ c, is_space c = true) l.
Proof.
  induction l as [|c l IH]; simpl; [by split|].
  destruct (is_space c) eqn:Hc.
  - rewrite IH. split; [by constructor|]. by intros [_ ?]%Forall_cons.
  - split; [done|]. intros [? _]%Forall_cons. congruence.
Qed.

Lemma drop_spaces_split l :
  ∃ sp, l = (sp ++ drop_spaces l)%list ∧ Forall (λ c, is_space c = true) sp
        ∧ (∀ c rest, drop_spaces l = c :: rest → is_space c = false).
Proof.
  induction l as [|c l (sp & Hl & Hsp & Hhd)]; simpl.
  - by exists [].
  - destruct (is_space c) eqn:Hc.
    + exists (c :: sp). split; [simpl; by rewrite <- Hl|]. split; [by constructor|done].
    + exists []. split; [done|]. split; [done|]. by intros c' rest [= <- _].
Qed.

Lemma trim_length_zero l :
  List.length (trim l) = 0%nat ↔ Forall (λ c, is_space c = true) l.
Proof.
  unfold trim. rewrite length_rev. split.
  - intros H%nil_length_inv. apply drop_spaces_nil in H. apply Forall_rev in H.
    rewrite rev_involutive in H.
    destruct (drop_spaces_split l) as (sp & Hl & Hsp & _). rewrite Hl.
    by apply Forall_app.
  - intros H. apply drop_spaces_nil in H. rewrite H. done.
Qed.

(** The accepted part of a string: what is left between its leading and
    its trailing white space. *)
Lemma trim_spec l :
  ∃ sp1 sp2,
    l = (sp1 ++ trim l ++ sp2)%list
    ∧ Forall (λ c, is_space c = true) sp1 ∧ Forall (λ c, is_space c = true) sp2
    ∧ (∀ c rest, trim l = c :: rest → is_space c = false)
    ∧ (∀ c rest, trim l = (rest ++ [c])%list → is_space c = false).
Proof.
  destruct (drop_spaces_split l) as (sp1 & Hl & Hsp1 & Hhd).
  destruct (drop_spaces_split (rev (drop_spaces l))) as (sp2 & Hr & Hsp2 & Hlast).
  unfold trim. set (core := drop_spaces (rev (drop_spaces l))) in *.
  assert (drop_spaces l = (rev core ++ rev sp2)%list) as Hd.
  { rewrite <- rev_app_distr, <- Hr. by rewrite rev_involutive. }
  exists sp1, (rev sp2). split_and!.
  - by rewrite <- Hd.
  - done.
  - by apply Forall_rev.
  - intros c rest Hc. apply (Hhd c (rest ++ rev sp2)%list). by rewrite Hd, Hc.
  - intros c rest Hc. apply (Hlast c (rev rest)).
    rewrite <- (rev_involutive core), Hc, rev_app_distr. done.
Qed.

(** X1 (validateMessage): a chat text is accepted exactly when it is a
    string of at most 500 characters, not all of them white space, that
    has no character repeated eleven times in a row, no [http://] or
    [https://] link, no ten consecutive upper-case letters and no ten
    consecutive digits. *)
Theorem validateMessage_accepts v :
  validateMessage v = true
  ↔ ∃ t, v = JStr t
         ∧ (String.length t ≤ 500)%nat
         ∧ ¬ Forall (λ c, is_space c = true) (list_ascii_of_string t)
         ∧ ¬ contains_repeat (list_ascii_of_string t)
         ∧ ¬ contains_url (list_ascii_of_string t)
         ∧ ¬ contains_run is_upper 10 (list_ascii_of_string t)
         ∧ ¬ contains_run is_digit 10 (list_ascii_of_string t).
Proof.
  destruct v as [| | | |t| |]; try (split; [done|by intros (? & [=] & _)]).
  unfold validateMessage, BOT_PROTECTION.MAX_MESSAGE_LENGTH.
  assert (∀ t', JStr t = JStr t' → list_ascii_of_string t' = list_ascii_of_string t)
    as Hinj by (by intros t' [= <-]).
  remember (list_ascii_of_string t) as cs eqn:Hcs. split.
  - destruct (negb (truthy (JStr t))); [done|].
    destruct (Nat.ltb_spec 500 (String.length t)) as [Hlen|Hlen]; [done|].
    destruct (Nat.eqb_spec (List.length (trim cs)) 0) as [Htrim|Htrim]; [done|].
    destruct (has_repeat cs) eqn:Hrep; [done|].
    destruct (has_url cs) eqn:Hurl; [done|].
    destruct (has_run is_upper 10 cs) eqn:Hup; [done|].
    destruct (has_run is_digit 10 cs) eqn:Hdig; [done|].
    intros _. exists t. rewrite <- Hcs. split_and!; try done.
    + by rewrite <- trim_length_zero.
    + rewrite <- has_repeat_spec. congruence.
    + rewrite <- has_url_spec. congruence.
    + rewrite <- has_run_spec. congruence.
    + rewrite <- has_run_spec. congruence.
  - intros (t' & Ht' & Hlen & Hsp & Hrep & Hurl & Hup & Hdig).
    rewrite (Hinj t' Ht') in *. injection Ht' as <-.
    rewrite <- trim_length_zero in Hsp. rewrite <- has_repeat_spec in Hrep.
    rewrite <- has_url_spec in Hurl. rewrite <- has_run_spec in Hup, Hdig.
    assert (negb (truthy (JStr t)) = false) as ->.
    { destruct t; [|done]. subst cs. by exfalso. }
    destruct (Nat.ltb_spec 500 (String.length t)); [lia|].
    destruct (Nat.eqb_spec (List.length (trim cs)) 0); [done|].
    apply not_true_is_false in Hrep, Hurl, Hup, Hdig.
    by rewrite Hrep, Hurl, Hup, Hdig.
Qed.

Lemma drop_spaces_app_spaces sp l :
  Forall (λ c, is_space c = true) sp → drop_spaces (sp ++ l) = drop_spaces l.
Proof. induction 1 as [|c sp Hc _ IH]; simpl; [done|]. by rewrite Hc. Qed.

Lemma trim_core sp1 a mid b sp2 :
  Forall (λ c, is_space c = true) sp1 → Forall (λ c, is_space c = true) sp2 →
  is_space a = false → is_space b = false →
  trim (sp1 ++ a :: mid ++ b :: sp2) = (a :: mid ++ [b])%list.
Proof.
  intros Hsp1 Hsp2 Ha Hb. unfold trim.
  rewrite drop_spaces_app_spaces by done. simpl. rewrite Ha.
  replace (a :: mid ++ b :: sp2)%list with ((a :: mid ++ [b]) ++ sp2)%list
    by (simpl; by rewrite <- app_assoc).
  rewrite rev_app_distr, drop_spaces_app_spaces by (by apply Forall_rev).
  replace (a :: mid ++ [b])%list with ((a :: mid) ++ [b])%list by done.
  rewrite rev_app_distr. simpl rev at 1. simpl app at 1. simpl drop_spaces.
  rewrite Hb. simpl. by rewrite rev_app_distr, rev_involutive.
Qed.

Lemma list_last_split {A} (l : list A) : l ≠ [] → ∃ mid b, l = (mid ++ [b])%list.
Proof.
  destruct l as [|x l] using rev_ind; [done|]. intros _. by exists l, x.
Qed.

Lemma validateUserName_shape v :
  validateUserName v = true
  ↔ ∃ u, v = JStr u
         ∧ (String.length u ≤ 20)%nat
         ∧ Forall (λ c, is_invalid_name_char c = false) (list_ascii_of_string u)
         ∧ ∃ sp1 a mid b sp2,
             list_ascii_of_string u = (sp1 ++ a :: mid ++ b :: sp2)%list
             ∧ Forall (λ c, is_space c = true) sp1
             ∧ Forall (λ c, is_space c = true) sp2
             ∧ is_space a = false ∧ is_space b = false.
Proof.
  destruct v as [| | | |u| |]; try (split; [done|by intros (? & [=] & _)]).
  unfold validateUserName, BOT_PROTECTION.MAX_USERNAME_LENGTH.
  assert (∀ u', JStr u = JStr u' → list_ascii_of_string u' = list_ascii_of_string u)
    as Hinj by (by intros u' [= <-]).
  remember (list_ascii_of_string u) as cs eqn:Hcs. split.
  - destruct (negb (truthy (JStr u))); [done|].
    destruct (Nat.ltb_spec 20 (String.length u)) as [Hlen|Hlen]; [done|].
    destruct (Nat.ltb_spec (List.length (trim cs)) 2) as [Htrim|Htrim]; [done|].
    destruct (existsb is_invalid_name_char cs) eqn:Hinv; [done|].
    intros _. exists u. rewrite <- Hcs. split_and!; try done.
    + apply Forall_forall. intros c Hc.
      destruct (is_invalid_name_char c) eqn:E; [|done].
      assert (existsb is_invalid_name_char cs = true); [|congruence].
      apply existsb_exists. exists c. split; [by apply list_elem_of_In|done].
    + destruct (trim_spec cs) as (sp1 & sp2 & Hl & Hsp1 & Hsp2 & Hhd & Hlast).
      destruct (trim cs) as [|a rest] eqn:Hcore; [simpl in Htrim; lia|].
      destruct (list_last_split rest) as (mid & b & ->).
      { intros ->. simpl in Htrim. lia. }
      exists sp1, a, mid, b, sp2. split_and!; try done.
      * rewrite Hl. simpl. by rewrite <- app_assoc.
      * by apply (Hhd a (mid ++ [b])%list).
      * by apply (Hlast b (a :: mid)).
  - intros (u' & Hu' & Hlen & Hinv & sp1 & a & mid & b & sp2 & Hl & Hsp1 & Hsp2 & Ha & Hb).
    rewrite (Hinj u' Hu') in *. injection Hu' as <-.
    assert (negb (truthy (JStr u)) = false) as ->.
    { destruct u; [|done]. subst cs. by destruct sp1. }
    destruct (Nat.ltb_spec 20 (String.length u)); [lia|].
    rewrite Hl at 1. rewrite (trim_core sp1 a mid b sp2) by done.
    destruct (Nat.ltb_spec (List.length (a :: mid ++ [b])) 2) as [H2|_].
    { simpl in H2. rewrite length_app in H2. simpl in H2. lia. }
    assert (existsb is_invalid_name_char cs = false) as ->; [|done].
    apply not_true_is_false. intros (c & Hc & Hbad)%existsb_exists.
    apply list_elem_of_In in Hc. rewrite Forall_forall in Hinv.
    apply Hinv in Hc. congruence.
Qed.

(** X2 (validateUserName): a display name is accepted exactly when it is
    a string of at most 20 characters without [<], [>], double quote,
    single quote and [&] that has two characters that are not white
    space, that is: white space, a first visible character, anything, a
    last visible character, white space. *)
Theorem validateUserName_accepts v :
  validateUserName v = true
  ↔ ∃ u, v = JStr u
         ∧ (String.length u ≤ 20)%nat
         ∧ Forall (λ c, is_invalid_name_char c = false) (list_ascii_of_string u)
         ∧ ∃ sp1 a mid b sp2,
             list_ascii_of_string u = (sp1 ++ a :: mid ++ b :: sp2)%list
             ∧ Forall (λ c, is_space c = true) sp1
             ∧ Forall (λ c, is_space c = true) sp2
             ∧ is_space a = false ∧ is_space b = false.
Proof. apply validateUserName_shape. Qed.

(** ** Display names are compared as sent *)

Lemma on_set_user_name_stores id userName s :
  Inv s → is_connected s id = true → validateUserName userName = true →
  ¬ name_taken s id userName →
  st (on_set_user_name id userName s)
  = with_names (<[id := userName]> (socketIdToUserName s)) s.
Proof.
  intros HI Hconn Hvalid Hfree. unfold on_set_user_name.
  rewrite (proj1 validated_template_ok userName Hvalid), Hvalid. simpl.
  destruct (current_room s id) as [c|] eqn:Hc; [|done].
  pose proof (current_room_truthy s id c HI Hc) as Ht. simpl in Ht. rewrite Ht.
  assert (member (roomIdToSocketIds s) id c) as (peers & Hg & Hin)
    by (by apply (inv_member s HI)).
  rewrite Hg. pose proof (name_check_spec s id c peers userName HI Hc Hg) as Hchk.
  destruct (existsb _ peers); [|done]. exfalso. by apply Hfree, Hchk.
Qed.

(** X3 (set-user-name): a name is stored as it was sent, surrounding
    white space included, and the check against the room compares the
    stored strings exactly.  So a valid name of fewer than 20 characters
    with a space put in front is again valid, and it is accepted and
    stored with its space unless a member of the room holds that very
    string, whoever holds the name without the space. *)
Theorem set_user_name_keeps_white_space now s id n :
  reachable s → is_connected s id = true →
  validateUserName (JStr n) = true → (String.length n < 20)%nat →
  ¬ name_taken s id (JStr (String " " n)) →
  validateUserName (JStr (String " " n)) = true
  ∧ socketIdToUserName (st (dispatch now s (SetUserName id (JStr (String " " n)))))
      !! id = Some (JStr (String " " n)).
Proof.
  intros Hreach Hconn Hvalid Hlen Hfree. pose proof (reachable_Inv s Hreach) as HI.
  assert (validateUserName (JStr (String " " n)) = true) as Hpad.
  { apply validateUserName_shape in Hvalid
      as (u & [= <-] & _ & Hinv & sp1 & a & mid & b & sp2 & Hl & Hsp1 & Hsp2 & Ha & Hb).
    apply validateUserName_shape. exists (String " " n). split; [done|].
    split; [simpl; lia|]. split; [by constructor|].
    exists (" "%char :: sp1), a, mid, b, sp2. simpl. rewrite Hl.
    split_and!; try done. by constructor. }
  split; [done|]. unfold dispatch. simpl. rewrite Hconn. simpl.
  rewrite (on_set_user_name_stores id _ s HI Hconn Hpad Hfree). simpl.
  apply lookup_insert_eq.
Qed.

Lemma set_user_name_keeps_white_space_witness :
  name_taken three_in_room "B" (JStr "bob")
  ∧ socketIdToUserName
      (st (dispatch 50 three_in_room (SetUserName "B" (JStr " bob")))) !! "B"
    = Some (JStr " bob").
Proof.
  split.
  - exists "room_1", "A". split_and!; try reflexivity; [|discriminate].
    exists ["A"; "B"; "C"]. split; [reflexivity|].
    apply list_elem_of_In; simpl; auto.
  - apply (set_user_name_keeps_white_space 50 three_in_room "B" "bob").
    + apply reachable_run, reachable_initial.
    + reflexivity.
    + reflexivity.
    + simpl. lia.
    + intros (c & p & Hc & (ps & Hg & Hin) & Hne & Hn).
      change (current_room three_in_room "B") with (Some "room_1") in Hc.
      injection Hc as <-.
      change (Map_get "room_1" (roomIdToSocketIds three_in_room))
        with (Some ["A"; "B"; "C"]) in Hg.
      injection Hg as <-.
      apply list_elem_of_In in Hin. simpl in Hin.
      destruct Hin as [<-|[<-|[<-|[]]]]; [|done|]; vm_compute in Hn; discriminate.
Defined.

(** ** Invariants of the reachable states *)

(** X4 (connection, join, leave, disconnect): in every reachable state a
    connection identifier is in the member set of a room exactly when the
    connection is open and that room is the [currentRoomId] of its
    closure.  Hence a connection is in at most one room, and a closed
    connection is in none. *)
Theorem membership_matches_closure s :
  reachable s →
  (∀ id r, member (roomIdToSocketIds s) id r
           ↔ is_connected s id = true ∧ current_room s id = Some r)
  ∧ (∀ id r r', member (roomIdToSocketIds s) id r
                → member (roomIdToSocketIds s) id r' → r = r')
  ∧ (∀ id r, is_connected s id = false → ¬ member (roomIdToSocketIds s) id r).
Proof.
  intros HI%reachable_Inv. split_and!.
  - apply (inv_member s HI).
  - intros id r r'. by apply member_unique.
  - intros id r Hc [Hc' _]%(inv_member s HI). congruence.
Qed.

Lemma membership_matches_closure_witness :
  ¬ member (roomIdToSocketIds (st (dispatch 50 three_in_room (Disconnect "A"))))
      "A" "room_1".
Proof.
  apply (membership_matches_closure
           (st (dispatch 50 three_in_room (Disconnect "A")))).
  - apply reachable_dispatch, reachable_run, reachable_initial.
  - reflexivity.
Defined.

(** X5 (join): in every reachable state the directory has one entry per
    room id, every room id in it passed the validation of [join], and no
    member set lists a connection twice. *)
Theorem directory_well_formed s :
  reachable s →
  NoDup (roomIdToSocketIds s).*1
  ∧ ∀ r peers, (r, peers) ∈ roomIdToSocketIds s
               → roomId_rejected (JStr r) = false ∧ NoDup peers.
Proof.
  intros HI%reachable_Inv. destruct (inv_rooms s HI) as [Hk Hm].
  split; [done|]. intros r peers Hin.
  apply (Map_elem_of_get _ _ _ Hk) in Hin. destruct (Hm r peers Hin) as [Hne Hnd].
  split; [|done]. destruct peers as [|p peers]; [done|].
  assert (member (roomIdToSocketIds s) p r) as Hmem.
  { exists (p :: peers). split; [done|left]. }
  apply (inv_member s HI) in Hmem as [_ Hc]. by apply (inv_current s HI p).
Qed.

Lemma directory_well_formed_witness :
  NoDup (roomIdToSocketIds two_rooms).*1.
Proof.
  apply (directory_well_formed two_rooms).
  apply reachable_run, reachable_initial.
Defined.



(** X7 (set-user-name, disconnect): in every reachable state every name
    in the registry passed [validateUserName] and belongs to an open
    connection; no name outlives its connection. *)
Theorem names_valid_and_owned s :
  reachable s →
  ∀ id n, socketIdToUserName s !! id = Some n
          → is_connected s id = true ∧ validateUserName n = true.
Proof. intros HI%reachable_Inv. apply (inv_names s HI). Qed.

Lemma names_valid_and_owned_witness :
  is_connected three_in_room "A" = true ∧ validateUserName (JStr "bob") = true.
Proof.
  apply (names_valid_and_owned three_in_room).
  - apply reachable_run, reachable_initial.
  - reflexivity.
Defined.

(** ** The activity records along a run *)

Lemma on_join_activity now id roomId s :
  Inv s → is_connected s id = true →
  userActivity (st (on_join now id roomId s)) = userActivity s
  ∨ userActivity (st (on_join now id roomId s))
    = (checkRoomJoinRate now id (userActivity s)).2.
Proof.
  intros HI Hconn.
  destruct (template_throws roomId) eqn:Hthrow.
  { left. unfold on_join. by rewrite Hthrow. }
  destruct (roomId_rejected roomId) eqn:Hrej.
  { left. unfold on_join. by rewrite Hthrow, Hrej. }
  destruct roomId as [| | | |r| |]; try done. right.
  destruct (checkRoomJoinRate now id (userActivity s)) as [ok ua] eqn:Hrate.
  destruct ok.
  - destruct (connected_lookup s id Hconn) as (k & Hk & Hck).
    by rewrite (on_join_accepted now id r s k ua HI Hk Hck Hrej Hrate).
  - unfold on_join. by rewrite Hthrow, Hrej, Hrate.
Qed.

Lemma on_chat_message_activity now id text timestamp s :
  userActivity (st (on_chat_message now id text timestamp s)) = userActivity s
  ∨ userActivity (st (on_chat_message now id text timestamp s))
    = (checkMessageRate now id (userActivity s)).2.
Proof.
  unfold on_chat_message. destruct (template_throws text); [by left|].
  destruct (validateMessage text); simpl; [|by left].
  right. destruct (checkMessageRate now id (userActivity s)) as [ok ua].
  by repeat case_match.
Qed.

(** The activity records after one turn of the event loop. *)
Lemma dispatch_activity now s ev :
  Inv s →
  let ua' := userActivity (st (dispatch now s ev)) in
  ua' = userActivity s
  ∨ (sockets s !! sender ev = None
     ∧ ua' = initializeUserActivity now (sender ev) (userActivity s))
  ∨ ua' = (checkRoomJoinRate now (sender ev) (userActivity s)).2
  ∨ ua' = (checkMessageRate now (sender ev) (userActivity s)).2
  ∨ ua' = delete (sender ev) (userActivity s).
Proof.
  intros HI. unfold dispatch.
  destruct ev as [i|i roomId|i roomId|i|i to data|i userName|i a text ts]; simpl.
  - destruct (String.eqb i ""); simpl; [by left|]. case_bool_decide as Hs; [by left|].
    right. left. split; [|done]. destruct (sockets s !! i) eqn:E; [|done].
    exfalso. apply Hs. by eexists.
  - destruct (is_connected s i) eqn:Hc; simpl; [|by left].
    destruct (on_join_activity now i roomId s HI Hc) as [-> | ->]; tauto.
  - destruct (is_connected s i) eqn:Hc; simpl; [|by left].
    destruct (on_leave_frame i roomId s HI Hc) as (_ & _ & ->).
    destruct (roomId_rejected roomId); tauto.
  - destruct (is_connected s i) eqn:Hc; simpl; [|by left].
    destruct (disconnect_frame i s HI Hc) as (_ & _ & ->). tauto.
  - destruct (is_connected s i) eqn:Hc; simpl; [|by left].
    rewrite on_signal_state. by left.
  - destruct (is_connected s i) eqn:Hc; simpl; [|by left].
    destruct (on_set_user_name_frame i userName s) as [_ ->]. by left.
  - destruct (is_connected s i) eqn:Hc; simpl; [|by left].
    destruct (on_chat_message_activity now i text ts s) as [-> | ->]; tauto.
Qed.

Lemma checkMessageRate_counters now id ua :
  (∀ i a, ua !! i = Some a → counters_ok a) →
  ∀ i a, (checkMessageRate now id ua).2 !! i = Some a → counters_ok a.
Proof.
  intros Hok i a. unfold checkMessageRate.
  destruct (ua !! id) as [a0|] eqn:Ha0; [|apply Hok].
  pose proof (Hok id a0 Ha0) as [Hm Hj].
  unfold counters_ok, BOT_PROTECTION.MAX_MESSAGES_PER_MINUTE,
    BOT_PROTECTION.MAX_ROOMS_PER_HOUR, BOT_PROTECTION.MIN_TIME_BETWEEN_MESSAGES in *.
  destruct (now - lastActivity a0 <? 1000); [apply Hok|].
  destruct (now - lastMessageReset a0 >? 60000); simpl.
  - destruct (decide (id = i)) as [<-|Hne].
    + rewrite lookup_insert_eq. intros [= <-]. simpl. lia.
    + rewrite lookup_insert_ne by done. apply Hok.
  - destruct (messageCount a0 >=? 10) eqn:Hge; simpl;
      (destruct (decide (id = i)) as [<-|Hne];
       [rewrite lookup_insert_eq; intros [= <-]; simpl
       |rewrite lookup_insert_ne by done; apply Hok]).
    + done.
    + rewrite Z.geb_leb in Hge. apply Z.leb_gt in Hge. lia.
Qed.

Lemma checkRoomJoinRate_counters now id ua :
  (∀ i a, ua !! i = Some a → counters_ok a) →
  ∀ i a, (checkRoomJoinRate now id ua).2 !! i = Some a → counters_ok a.
Proof.
  intros Hok i a. unfold checkRoomJoinRate.
  destruct (ua !! id) as [a0|] eqn:Ha0; [|apply Hok].
  pose proof (Hok id a0 Ha0) as [Hm Hj].
  unfold counters_ok, BOT_PROTECTION.MAX_MESSAGES_PER_MINUTE,
    BOT_PROTECTION.MAX_ROOMS_PER_HOUR in *.
  destruct (now - lastRoomJoinReset a0 >? 3600000); simpl.
  - destruct (decide (id = i)) as [<-|Hne].
    + rewrite lookup_insert_eq. intros [= <-]. simpl. lia.
    + rewrite lookup_insert_ne by done. apply Hok.
  - destruct (roomJoins a0 >=? 5) eqn:Hge; simpl;
      (destruct (decide (id = i)) as [<-|Hne];
       [rewrite lookup_insert_eq; intros [= <-]; simpl
       |rewrite lookup_insert_ne by done; apply Hok]).
    + done.
    + rewrite Z.geb_leb in Hge. apply Z.leb_gt in Hge. lia.
Qed.

(** X8 (checkMessageRate, checkRoomJoinRate): in every reachable state
    the message counter of every activity record is between 0 and 10 and
    its join counter between 0 and 5: within one window a connection has
    at most 10 messages and at most 5 joins accepted. *)
Theorem counters_within_limits s :
  reachable s → ∀ id a, userActivity s !! id = Some a → counters_ok a.
Proof.
  induction 1 as [|now s ev Hreach IH]; [done|].
  pose proof (reachable_Inv s Hreach) as HI.
  destruct (dispatch_activity now s ev HI) as [->|[[_ ->]|[->|[->| ->]]]].
  - done.
  - intros id a. unfold initializeUserActivity.
    destruct (decide (sender ev = id)) as [<-|Hne].
    + rewrite lookup_insert_eq. intros [= <-]. by compute.
    + rewrite lookup_insert_ne by done. apply IH.
  - by apply checkRoomJoinRate_counters.
  - by apply checkMessageRate_counters.
  - intros id a [_ Ha]%lookup_delete_Some. by apply (IH id).
Qed.

Lemma counters_within_limits_witness :
  counters_ok (mkActivity 0 0 0 1 0).
Proof.
  apply (counters_within_limits three_in_room) with (id := "A").
  - apply reachable_run, reachable_initial.
  - reflexivity.
Defined.

Lemma checkRoomJoinRate_keeps_lastActivity now id ua i a a' :
  ua !! i = Some a → (checkRoomJoinRate now id ua).2 !! i = Some a' →
  lastActivity a' = lastActivity a.
Proof.
  intros Ha. unfold checkRoomJoinRate.
  destruct (ua !! id) as [a0|] eqn:Ha0; [|simpl; rewrite Ha; by intros [= <-]].
  destruct (decide (id = i)) as [<-|Hne].
  - rewrite Ha in Ha0. injection Ha0 as <-.
    repeat case_match; simpl; rewrite ?lookup_insert_eq; intros [= <-]; done.
  - repeat case_match; simpl; rewrite ?lookup_insert_ne by done;
      rewrite Ha; by intros [= <-].
Qed.

Lemma checkMessageRate_keeps_lastActivity_any now id ua i a a' :
  ua !! i = Some a → (checkMessageRate now id ua).2 !! i = Some a' →
  lastActivity a' = lastActivity a.
Proof.
  intros Ha. destruct (decide (id = i)) as [<-|Hne].
  - by apply checkMessageRate_keeps_lastActivity.
  - unfold checkMessageRate.
    destruct (ua !! id) as [a0|]; [|simpl; rewrite Ha; by intros [= <-]].
    repeat case_match; simpl; rewrite ?lookup_insert_ne by done;
      rewrite Ha; by intros [= <-].
Qed.

(** X9 (every handler): no event changes the [lastActivity] of an
    activity record that exists.  A record keeps the time at which its
    connection was opened for as long as it exists. *)
Theorem lastActivity_never_updated now s ev id a a' :
  reachable s →
  userActivity s !! id = Some a →
  userActivity (st (dispatch now s ev)) !! id = Some a' →
  lastActivity a' = lastActivity a.
Proof.
  intros Hreach Ha. pose proof (reachable_Inv s Hreach) as HI.
  destruct (dispatch_activity now s ev HI) as [->|[[Hnew ->]|[->|[->| ->]]]].
  - rewrite Ha. by intros [= <-].
  - assert (sender ev ≠ id) as Hne.
    { intros Heq. rewrite Heq in Hnew.
      assert (is_connected s id = true) as Hc.
      { apply (inv_activity s HI). by eexists. }
      unfold is_connected in Hc. by rewrite Hnew in Hc. }
    unfold initializeUserActivity. rewrite lookup_insert_ne by done.
    rewrite Ha. by intros [= <-].
  - by apply checkRoomJoinRate_keeps_lastActivity.
  - by apply checkMessageRate_keeps_lastActivity_any.
  - intros [_ Ha']%lookup_delete_Some. rewrite Ha in Ha'. by injection Ha' as <-.
Qed.

Lemma lastActivity_never_updated_witness :
  lastActivity (mkActivity 0 1 0 1 0) = lastActivity (mkActivity 0 0 0 1 0).
Proof.
  apply (lastActivity_never_updated 5000 three_in_room
           (ChatMessage "A" JUndefined (JStr "hello") (JNum 1)) "A").
  - apply reachable_run, reachable_initial.
  - reflexivity.
  - reflexivity.
Defined.

(** ** What a join sends *)

Lemma Set_add_fresh (id : string) (l : list string) :
  id ∉ l → Set_add id l = (l ++ [id])%list.
Proof.
  intros Hid. unfold Set_add, Set_has. by rewrite bool_decide_eq_false_2.
Qed.

Lemma filter_others (id : string) (l : list string) :
  id ∉ l → filter (λ p, p ≠ id) (l ++ [id])%list = l.
Proof.
  intros Hid. rewrite filter_app, filter_cons, decide_False by (intros ?; done).
  rewrite filter_nil, app_nil_r. by apply Set_delete_absent.
Qed.

Lemma filter_Set_add (id : string) (l : list string) :
  filter (λ p, p ≠ id) (Set_add id l) = filter (λ p, p ≠ id) l.
Proof.
  unfold Set_add. destruct (Set_has id l); [done|].
  rewrite filter_app, filter_cons, decide_False by (intros ?; done).
  by rewrite filter_nil, app_nil_r.
Qed.

Lemma Map_get_socket_leave_ne m id r r' :
  r ≠ r' → Map_get r' (socket_leave id r m) = Map_get r' m.
Proof.
  intros Hne. unfold socket_leave. destruct (Map_get r m) as [peers|]; [|done].
  destruct (List.length _ =? 0)%nat.
  - by rewrite Map_get_delete_ne.
  - by rewrite Map_get_set_ne.
Qed.

(** A broadcast of connection [id] reaches the same connections before
    and after [id] itself joins or leaves a room. *)
Lemma socket_to_emit_socket_leave m id c room ev :
  socket_to_emit (socket_leave id c m) room id ev = socket_to_emit m room id ev.
Proof.
  unfold socket_to_emit. f_equal. destruct (decide (c = room)) as [->|Hne].
  - rewrite Map_get_socket_leave_eq. destruct (Map_get room m) as [peers|]; [|done].
    destruct (decide (Set_delete id peers = [])) as [He|_]; simpl.
    + rewrite filter_nil. symmetry. apply He.
    + apply Set_delete_idemp.
  - by rewrite Map_get_socket_leave_ne.
Qed.

Lemma socket_to_emit_socket_join m id r room ev :
  socket_to_emit (socket_join id r m) room id ev = socket_to_emit m room id ev.
Proof.
  unfold socket_to_emit, socket_join. f_equal.
  destruct (decide (r = room)) as [->|Hne].
  - rewrite Map_get_set_eq. simpl. apply filter_Set_add.
  - by rewrite Map_get_set_ne.
Qed.

Lemma on_join_result now id r s k ua :
  Inv s → sockets s !! id = Some k → connected k = true →
  roomId_rejected (JStr r) = false →
  checkRoomJoinRate now id (userActivity s) = (true, ua) →
  let others := default [] (Map_get r (rooms_without id s)) in
  let lefts :=
    match current_room s id with
    | Some c => socket_to_emit (sioRooms s) c id (PeerLeft id)
    | None => []
    end in
  out (on_join now id (JStr r) s)
  = (lefts ++ [(id, PeersList others)]
     ++ socket_to_emit (sioRooms s) r id (PeerJoined id))%list
  ∧ Map_get r (roomIdToSocketIds (st (on_join now id (JStr r) s)))
    = Some (others ++ [id])%list
  ∧ id ∉ others.
Proof.
  intros HI Hk Hconn Hrej Hrate others lefts.
  assert (id ∉ others) as Hfresh.
  { subst others. intros Hin.
    destruct (Map_get r (rooms_without id s)) as [ps|] eqn:Hg;
      [|by apply elem_of_nil in Hin].
    assert (member (rooms_without id s) id r) as Hm by (by exists ps).
    apply member_rooms_without in Hm as [_ Hm]; done. }
  split_and!; [| |done].
  2:{ rewrite (on_join_accepted now id r s k ua HI Hk Hconn Hrej Hrate). simpl.
      unfold socket_join. rewrite Map_get_set_eq. fold others.
      by rewrite Set_add_fresh. }
  unfold on_join. rewrite Hrej, Hrate. simpl.
  replace (current_room (with_activity ua s) id) with (current_room s id) by done.
  assert (∀ R : Rooms,
    default [] (Map_get r (if Map_has r R then R else Map_set r [] R))
    = default [] (Map_get r R)) as Hdef.
  { intros R. unfold Map_has. destruct (Map_get r R) eqn:E; [by rewrite E|].
    by rewrite Map_get_set_eq. }
  subst others lefts. unfold rooms_without in *.
  destruct (current_room s id) as [c|] eqn:Hc.
  - pose proof (current_room_truthy s id c HI Hc) as Ht. simpl in Ht. rewrite Ht.
    simpl. destruct (leave_room id c _) as [s2 o1] eqn:Hl.
    pose proof (f_equal fst Hl) as Hs. pose proof (f_equal snd Hl) as Ho.
    rewrite leave_room_st in Hs. rewrite leave_room_out in Ho. simpl in Hs, Ho.
    subst s2 o1. simpl. rewrite Hdef.
    rewrite Set_add_fresh, filter_others by done.
    assert (member (roomIdToSocketIds s) id c) as (peers & Hg & Hin).
    { apply (inv_member s HI). split; [|done]. unfold is_connected. by rewrite Hk. }
    unfold Map_has. rewrite Hg.
    by rewrite socket_to_emit_socket_join, !socket_to_emit_socket_leave.
  - simpl. rewrite Hdef.
    rewrite Set_add_fresh, filter_others by done.
    by rewrite socket_to_emit_socket_join.
Qed.



(** ** Leaving a room one is not in *)



(** ** Signals that are not forwarded *)

Lemma find_target_room_non_string id to m :
  (∀ b, to ≠ JStr b) → find_target_room id to m = None.
Proof.
  intros Hto. unfold find_target_room.
  destruct (List.find _ m) as [[r peers]|] eqn:E; [|done].
  apply find_some in E as [_ Hp]. apply andb_true_iff in Hp as [_ Hp].
  destruct to; try done. by destruct (Hto s).
Qed.

(** X12 (signal, lines 206-224): a signal whose target is falsy
    (missing, [null], the empty string, 0, [false]) is dropped without
    any event.  A signal with any other target that is not a connection
    sharing a room with the sender (a connection elsewhere, an unknown
    identifier, a value that is not a string) is answered with the
    [signal] error, whatever its payload, unless the log line throws on
    the target: then nothing is sent.  None of them changes the
    state. *)
Theorem signal_without_valid_target now s a to data :
  reachable s → is_connected s a = true →
  (truthy to = false → dispatch now s (Signal a to data) = returns s [])
  ∧ (truthy to = true → (∀ b, to = JStr b → ¬ same_room s a b)
     → dispatch now s (Signal a to data)
       = if template_throws to then mkResult s [] true
         else returns s [(a, ErrorEv "signal" Msg.not_in_room)]).
Proof.
  intros Hreach Ha. pose proof (reachable_Inv s Hreach) as HI.
  unfold dispatch. simpl. rewrite Ha. simpl. unfold on_signal. split.
  - by intros ->.
  - intros -> Hnone.
    assert (find_target_room a to (roomIdToSocketIds s) = None) as ->; [|done].
    destruct to as [| | | |b| |]; try (by apply find_target_room_non_string).
    pose proof (find_target_room_same_room s a b HI) as Hfind.
    destruct (find_target_room a (JStr b) (roomIdToSocketIds s)); [|done].
    destruct Hfind as [Hsame _]. by destruct (Hnone b eq_refl).
Qed.

Lemma signal_without_valid_target_witness :
  dispatch 50 three_in_room (Signal "A" (JStr "") (JObj "offer"))
  = returns three_in_room []
  ∧ dispatch 50 three_in_room (Signal "A" (JNum 7) JUndefined)
    = returns three_in_room [("A", ErrorEv "signal" Msg.not_in_room)]
  ∧ dispatch 50 three_in_room (Signal "A" (JUnprintable "{toString: 1}") JUndefined)
    = mkResult three_in_room [] true.
Proof.
  split_and!.
  - apply (signal_without_valid_target 50 three_in_room "A" (JStr "") (JObj "offer")).
    + apply reachable_run, reachable_initial.
    + reflexivity.
    + reflexivity.
  - apply (signal_without_valid_target 50 three_in_room "A" (JNum 7) JUndefined).
    + apply reachable_run, reachable_initial.
    + reflexivity.
    + reflexivity.
    + intros b Hb. discriminate.
  - apply (signal_without_valid_target 50 three_in_room "A"
             (JUnprintable "{toString: 1}") JUndefined).
    + apply reachable_run, reachable_initial.
    + reflexivity.
    + reflexivity.
    + intros b Hb. discriminate.
Defined.

(** ** Chat messages outside a room *)

(** X13 (chat-message, lines 259-282): a valid chat message of a
    connection that is in no room passes through the rate limiter before
    the room is looked at: nobody receives anything, not even an error,
    and the message is counted against the sender's quota of the
    window. *)
Theorem chat_outside_room_is_counted now s id a author text timestamp :
  reachable s → is_connected s id = true → current_room s id = None →
  validateMessage text = true →
  userActivity s !! id = Some a →
  1000 ≤ now - lastActivity a →
  let count := if now - lastMessageReset a >? 60000 then 0 else messageCount a in
  count < 10 →
  let res := dispatch now s (ChatMessage id author text timestamp) in
  out res = []
  ∧ messageCount <$> (userActivity (st res) !! id) = Some (count + 1).
Proof.
  intros Hreach Hconn Hroom Hvalid Ha Hspacing count Hcount res. subst res.
  unfold dispatch. simpl. rewrite Hconn. simpl.
  unfold on_chat_message.
  rewrite (proj1 (proj2 validated_template_ok) text Hvalid), Hvalid. simpl.
  destruct (checkMessageRate_window now id (userActivity s) a Ha) as (_ & _ & Hacc).
  rewrite (Hacc Hspacing Hcount). simpl.
  replace (current_room (with_activity _ s) id) with (current_room s id) by done.
  rewrite Hroom. simpl. split; [done|]. by rewrite lookup_insert_eq.
Qed.

Lemma chat_outside_room_is_counted_witness :
  let res := dispatch 5000 (run initial [(0, Connect "E")])
               (ChatMessage "E" JUndefined (JStr "anyone") (JNum 1)) in
  out res = [] ∧ messageCount <$> (userActivity (st res) !! "E") = Some 1.
Proof.
  apply (chat_outside_room_is_counted 5000 (run initial [(0, Connect "E")]) "E"
           (mkActivity 0 0 0 0 0)).
  - apply reachable_run, reachable_initial.
  - reflexivity.
  - reflexivity.
  - reflexivity.
  - reflexivity.
  - simpl. lia.
  - simpl. lia.
Defined.

(** ** Joining does not look at names *)

(** X14 (join and set-user-name): the uniqueness of a display name is
    checked when the name is set and at no other time.  A connection
    that joins a room keeps its name even when a member of that room
    holds the same name, so one room can hold two members with one
    name. *)
Theorem join_does_not_check_names now s a b r n :
  reachable s → is_connected s b = true → a ≠ b →
  member (roomIdToSocketIds s) a r →
  socketIdToUserName s !! a = Some n → socketIdToUserName s !! b = Some n →
  (checkRoomJoinRate now b (userActivity s)).1 = true →
  let s' := st (dispatch now s (Join b (JStr r))) in
  member (roomIdToSocketIds s') a r ∧ member (roomIdToSocketIds s') b r
  ∧ socketIdToUserName s' !! a = Some n ∧ socketIdToUserName s' !! b = Some n.
Proof.
  intros Hreach Hb Hne Hmem Hna Hnb Hrate s'. subst s'.
  pose proof (reachable_Inv s Hreach) as HI.
  destruct (connected_lookup s b Hb) as (k & Hk & Hck).
  assert (roomId_rejected (JStr r) = false) as Hrej.
  { apply (inv_member s HI) in Hmem as [_ Hc]. by apply (inv_current s HI a). }
  destruct (checkRoomJoinRate now b (userActivity s)) as [ok ua] eqn:Hr.
  simpl in Hrate. subst ok.
  unfold dispatch. simpl. rewrite Hb. simpl.
  rewrite (on_join_accepted now b r s k ua HI Hk Hck Hrej Hr). simpl.
  split_and!; try done.
  - apply member_socket_join. left. by apply member_rooms_without.
  - apply member_socket_join. by right.
Qed.

Lemma join_does_not_check_names_witness :
  let s' := st (dispatch 60 two_bobs (Join "D" (JStr "room_1"))) in
  Map_get "room_1" (roomIdToSocketIds s') = Some ["A"; "D"]
  ∧ socketIdToUserName s' !! "A" = Some (JStr "bob")
  ∧ socketIdToUserName s' !! "D" = Some (JStr "bob").
Proof.
  assert (let s' := st (dispatch 60 two_bobs (Join "D" (JStr "room_1"))) in
          member (roomIdToSocketIds s') "A" "room_1"
          ∧ member (roomIdToSocketIds s') "D" "room_1"
          ∧ socketIdToUserName s' !! "A" = Some (JStr "bob")
          ∧ socketIdToUserName s' !! "D" = Some (JStr "bob")) as (_ & _ & Ha & Hd).
  { apply (join_does_not_check_names 60 two_bobs "A" "D" "room_1" (JStr "bob")).
    - apply reachable_run, reachable_run, reachable_initial.
    - reflexivity.
    - discriminate.
    - exists ["A"]. split; [reflexivity|]. apply list_elem_of_In; simpl; auto.
    - reflexivity.
    - reflexivity.
    - reflexivity. }
  split_and!; [reflexivity|exact Ha|exact Hd].
Defined.

(** ** The two limiters *)

(** X15 (checkMessageRate, checkRoomJoinRate): a check that rejects
    leaves every activity record as it was; a rejected message or join
    costs nothing and does not restart a window. *)
Theorem rejected_check_changes_nothing now id (ua : gmap string Activity) :
  ((checkMessageRate now id ua).1 = false → (checkMessageRate now id ua).2 = ua)
  ∧ ((checkRoomJoinRate now id ua).1 = false → (checkRoomJoinRate now id ua).2 = ua).
Proof.
  unfold checkMessageRate, checkRoomJoinRate,
    BOT_PROTECTION.MAX_MESSAGES_PER_MINUTE, BOT_PROTECTION.MAX_ROOMS_PER_HOUR.
  destruct (ua !! id) as [a|] eqn:Ha; [|done]. split.
  - destruct (now - lastActivity a <? _); [done|].
    destruct (now - lastMessageReset a >? 60000); simpl; [done|].
    destruct (messageCount a >=? 10); simpl; [|done].
    intros _. by apply insert_id.
  - destruct (now - lastRoomJoinReset a >? 3600000); simpl; [done|].
    destruct (roomJoins a >=? 5); simpl; [|done].
    intros _. by apply insert_id.
Qed.

Lemma rejected_check_changes_nothing_witness :
  (checkMessageRate 500 "A" (userActivity three_in_room)).2
  = userActivity three_in_room.
Proof.
  apply (rejected_check_changes_nothing 500 "A" (userActivity three_in_room)).
  reflexivity.
Defined.

Lemma checkMessageRate_join_fields now id ua i :
  (λ a, (roomJoins a, lastRoomJoinReset a)) <$> ((checkMessageRate now id ua).2 !! i)
  = (λ a, (roomJoins a, lastRoomJoinReset a)) <$> (ua !! i).
Proof.
  unfold checkMessageRate. destruct (ua !! id) as [a0|] eqn:Ha0; [|done].
  destruct (decide (id = i)) as [<-|Hne].
  - repeat case_match; simpl; rewrite ?lookup_insert_eq, ?Ha0; done.
  - repeat case_match; simpl; rewrite ?lookup_insert_ne by done; done.
Qed.

Lemma checkRoomJoinRate_message_fields now id ua i :
  (λ a, (lastActivity a, messageCount a, lastMessageReset a))
    <$> ((checkRoomJoinRate now id ua).2 !! i)
  = (λ a, (lastActivity a, messageCount a, lastMessageReset a)) <$> (ua !! i).
Proof.
  unfold checkRoomJoinRate. destruct (ua !! id) as [a0|] eqn:Ha0; [|done].
  destruct (decide (id = i)) as [<-|Hne].
  - repeat case_match; simpl; rewrite ?lookup_insert_eq, ?Ha0; done.
  - repeat case_match; simpl; rewrite ?lookup_insert_ne by done; done.
Qed.

Lemma checkRoomJoinRate_verdict now id (ua : gmap string Activity) :
  (checkRoomJoinRate now id ua).1
  = match ua !! id with
    | Some a =>
        negb ((if now - lastRoomJoinReset a >? 3600000 then 0 else roomJoins a)
              >=? 5)
    | None => true
    end.
Proof.
  unfold checkRoomJoinRate, BOT_PROTECTION.MAX_ROOMS_PER_HOUR.
  destruct (ua !! id) as [a|]; [|done].
  destruct (now - lastRoomJoinReset a >? 3600000); simpl; [done|].
  by destruct (roomJoins a >=? 5).
Qed.

Lemma checkMessageRate_verdict now id (ua : gmap string Activity) :
  (checkMessageRate now id ua).1
  = match ua !! id with
    | Some a =>
        negb (now - lastActivity a <? 1000)
        && negb ((if now - lastMessageReset a >? 60000 then 0 else messageCount a)
                 >=? 10)
    | None => true
    end.
Proof.
  unfold checkMessageRate, BOT_PROTECTION.MIN_TIME_BETWEEN_MESSAGES,
    BOT_PROTECTION.MAX_MESSAGES_PER_MINUTE.
  destruct (ua !! id) as [a|]; [|done].
  destruct (now - lastActivity a <? 1000); simpl; [done|].
  destruct (now - lastMessageReset a >? 60000); simpl; [done|].
  by destruct (messageCount a >=? 10).
Qed.

(** X16 (checkMessageRate, checkRoomJoinRate of part_001, lines 56-95):
    the two limiters do not interfere.  Whether a join is accepted does
    not depend on the message checks that ran before it, and whether a
    message is accepted does not depend on the join checks that ran
    before it, for any connections and clock readings. *)
Theorem limiters_are_independent t1 t2 id1 id2 (ua : gmap string Activity) :
  (checkRoomJoinRate t2 id2 (checkMessageRate t1 id1 ua).2).1
  = (checkRoomJoinRate t2 id2 ua).1
  ∧ (checkMessageRate t2 id2 (checkRoomJoinRate t1 id1 ua).2).1
    = (checkMessageRate t2 id2 ua).1.
Proof.
  rewrite !checkRoomJoinRate_verdict, !checkMessageRate_verdict. split.
  - pose proof (checkMessageRate_join_fields t1 id1 ua id2) as H.
    destruct ((checkMessageRate t1 id1 ua).2 !! id2) as [a'|],
      (ua !! id2) as [a|]; try done.
    simpl in H. injection H as -> ->. done.
  - pose proof (checkRoomJoinRate_message_fields t1 id1 ua id2) as H.
    destruct ((checkRoomJoinRate t1 id1 ua).2 !! id2) as [a'|],
      (ua !! id2) as [a|]; try done.
    simpl in H. injection H as -> -> ->. done.
Qed.

(** ** The tracker of [src/server.js] *)

Lemma server_js_join_verdict now id ua :
  (ServerJs.checkRoomJoinRate now id ua).1
  = match Map_get id ua with
    | Some a =>
        negb ((if now - ServerJs.joinTime a >? 3600000 then 0
               else ServerJs.roomJoins a) >=? 5)
    | None => true
    end.
Proof.
  unfold ServerJs.checkRoomJoinRate, BOT_PROTECTION.MAX_ROOMS_PER_HOUR.
  destruct (Map_get id ua) as [a|]; [|done].
  destruct (now - ServerJs.joinTime a >? 3600000); simpl; [done|].
  by destruct (ServerJs.roomJoins a >=? 5).
Qed.

Lemma server_js_message_verdict now id ua :
  (ServerJs.checkMessageRate now id ua).1
  = match Map_get id ua with
    | Some a =>
        negb (now - ServerJs.lastActivity a <? 1000)
        && negb ((if now - ServerJs.joinTime a >? 60000 then 0
                  else ServerJs.messageCount a) >=? 10)
    | None => true
    end.
Proof.
  unfold ServerJs.checkMessageRate, BOT_PROTECTION.MIN_TIME_BETWEEN_MESSAGES,
    BOT_PROTECTION.MAX_MESSAGES_PER_MINUTE.
  destruct (Map_get id ua) as [a|]; [|done].
  destruct (now - ServerJs.lastActivity a <? 1000); simpl; [done|].
  destruct (now - ServerJs.joinTime a >? 60000); simpl; [done|].
  by destruct (ServerJs.messageCount a >=? 10).
Qed.

(** The record of [id] after a check that restarts the shared window. *)
Lemma server_js_message_restart now id ua a :
  Map_get id ua = Some a →
  1000 ≤ now - ServerJs.lastActivity a → 60000 < now - ServerJs.joinTime a →
  Map_get id (ServerJs.checkMessageRate now id ua).2
  = Some (ServerJs.mkActivity (ServerJs.lastActivity a) 1 now (ServerJs.roomJoins a)).
Proof.
  intros Ha Hsp Hmin.
  unfold ServerJs.checkMessageRate, BOT_PROTECTION.MIN_TIME_BETWEEN_MESSAGES,
    BOT_PROTECTION.MAX_MESSAGES_PER_MINUTE.
  rewrite Ha.
  assert ((now - ServerJs.lastActivity a <? 1000) = false) as ->
    by (apply Z.ltb_ge; lia).
  assert ((now - ServerJs.joinTime a >? 60000) = true) as ->
    by (apply Z.gtb_lt; lia).
  simpl. by rewrite Map_get_set_eq.
Qed.

Lemma server_js_join_restart now id ua a :
  Map_get id ua = Some a → 3600000 < now - ServerJs.joinTime a →
  Map_get id (ServerJs.checkRoomJoinRate now id ua).2
  = Some (ServerJs.mkActivity (ServerJs.lastActivity a) (ServerJs.messageCount a)
            now 1).
Proof.
  intros Ha Hhour.
  unfold ServerJs.checkRoomJoinRate, BOT_PROTECTION.MAX_ROOMS_PER_HOUR.
  rewrite Ha.
  assert ((now - ServerJs.joinTime a >? 3600000) = true) as ->
    by (apply Z.gtb_lt; lia).
  simpl. by rewrite Map_get_set_eq.
Qed.

(** X17 (checkMessageRate, checkRoomJoinRate of src/server.js): the two
    limiters share [joinTime].  A message check that restarts the minute
    window restarts the hour window too: a connection at its join limit
    is refused for another hour after such a message, although a join at
    that time would have been accepted without it.  In the same way a
    join check that restarts the hour window keeps a full message
    counter alive: the next message within a minute is refused, although
    it would have been accepted without the join. *)
Theorem server_js_limiters_share_window id ua a t t' :
  Map_get id ua = Some a →
  t ≤ t' → 1000 ≤ t - ServerJs.lastActivity a →
  (5 ≤ ServerJs.roomJoins a → 60000 < t - ServerJs.joinTime a →
   t' - t ≤ 3600000 → 3600000 < t' - ServerJs.joinTime a →
   (ServerJs.checkRoomJoinRate t' id ua).1 = true
   ∧ (ServerJs.checkRoomJoinRate t' id (ServerJs.checkMessageRate t id ua).2).1
     = false)
  ∧ (10 ≤ ServerJs.messageCount a → 3600000 < t - ServerJs.joinTime a →
     t' - t ≤ 60000 →
     (ServerJs.checkMessageRate t' id ua).1 = true
     ∧ (ServerJs.checkMessageRate t' id (ServerJs.checkRoomJoinRate t id ua).2).1
       = false).
Proof.
  intros Ha Htt Hsp. split.
  - intros Hj Hmin Hhour Hold.
    rewrite !server_js_join_verdict, Ha,
      (server_js_message_restart t id ua a Ha Hsp Hmin). simpl.
    assert ((t' - ServerJs.joinTime a >? 3600000) = true) as ->
      by (apply Z.gtb_lt; lia).
    assert ((t' - t >? 3600000) = false) as ->.
    { rewrite Z.gtb_ltb. apply Z.ltb_ge. lia. }
    split; [done|]. apply negb_false_iff. rewrite Z.geb_leb. apply Z.leb_le. lia.
  - intros Hm Hhour Hmin.
    rewrite !server_js_message_verdict, Ha,
      (server_js_join_restart t id ua a Ha Hhour). simpl.
    assert ((t' - ServerJs.lastActivity a <? 1000) = false) as ->
      by (apply Z.ltb_ge; lia).
    assert ((t' - ServerJs.joinTime a >? 60000) = true) as ->
      by (apply Z.gtb_lt; lia).
    assert ((t' - t >? 60000) = false) as ->.
    { rewrite Z.gtb_ltb. apply Z.ltb_ge. lia. }
    split; [done|]. simpl. apply negb_false_iff. rewrite Z.geb_leb.
    apply Z.leb_le. lia.
Qed.

Lemma server_js_limiters_share_window_witness :
  (ServerJs.checkRoomJoinRate 3700000 "A"
     [("A", ServerJs.mkActivity 0 0 0 5)]).1 = true
  ∧ (ServerJs.checkRoomJoinRate 3700000 "A"
       (ServerJs.checkMessageRate 3650000 "A"
          [("A", ServerJs.mkActivity 0 0 0 5)]).2).1 = false.
Proof.
  apply (server_js_limiters_share_window "A" [("A", ServerJs.mkActivity 0 0 0 5)]
           (ServerJs.mkActivity 0 0 0 5) 3650000 3700000);
    try reflexivity; simpl; lia.
Defined.

Lemma sweep_fold now l t id :
  let stale := λ kv : string * ServerJs.Activity,
                 kv.1 = id ∧ 300000 < now - ServerJs.lastActivity kv.2 in
  let t' := foldl (ServerJs.sweep_entry now) t l in
  (Exists stale l
   → Map_get id (ServerJs.userActivity t') = None
     ∧ ServerJs.socketIdToUserName t' !! id = None)
  ∧ (¬ Exists stale l
     → Map_get id (ServerJs.userActivity t') = Map_get id (ServerJs.userActivity t)
       ∧ ServerJs.socketIdToUserName t' !! id = ServerJs.socketIdToUserName t !! id).
Proof.
  intros stale. revert t. induction l as [|[k a] l IH]; intros t; cbn [foldl].
  - split; [|done]. by intros H%Exists_nil.
  - destruct (IH (ServerJs.sweep_entry now t (k, a))) as [IHs IHn].
    destruct (decide (Exists stale l)) as [Hl|Hl].
    { split; [intros _; by apply IHs|]. intros Hn. exfalso. apply Hn.
      by apply Exists_cons_tl. }
    destruct (IHn Hl) as [Hu Hnm]. rewrite Hu, Hnm.
    unfold ServerJs.sweep_entry.
    destruct (Z.gtb_spec (now - ServerJs.lastActivity a) 300000) as [Hst|Hst]; simpl.
    + destruct (decide (k = id)) as [->|Hne].
      * rewrite Map_get_delete_eq, lookup_delete_eq. split; [done|].
        intros Hn. exfalso. apply Hn. apply Exists_cons_hd. by split.
      * rewrite Map_get_delete_ne, lookup_delete_ne by done. split; [|done].
        intros [[Heq _]|Hin]%Exists_cons; [done|]. by exfalso.
    + split; [|done]. intros [[_ Hst0]|Hin]%Exists_cons.
      * simpl in Hst0. lia.
      * by exfalso.
Qed.

Lemma sweep_fold_pool now l t :
  ServerJs.activityPool (foldl (ServerJs.sweep_entry now) t l)
  = (ServerJs.activityPool t
     ++ replicate
          (List.length
             (filter (λ kv, 300000 < now - ServerJs.lastActivity kv.2) l))
          (ServerJs.mkActivity 0 0 0 0))%list.
Proof.
  revert t. induction l as [|[k a] l IH]; intros t; cbn [foldl].
  - simpl. by rewrite app_nil_r.
  - rewrite IH, filter_cons. unfold ServerJs.sweep_entry. simpl.
    destruct (Z.gtb_spec (now - ServerJs.lastActivity a) 300000) as [Hst|Hst].
    + rewrite decide_True by lia. simpl.
      unfold ServerJs.returnActivityToPool. by rewrite <- app_assoc.
    + by rewrite decide_False by lia.
Qed.

(** X18 (the sweep of src/server.js, lines 385-394): a sweep at time
    [now] removes the activity record and the display name of every
    identifier whose record has a [lastActivity] more than 300000 ms
    old, whether or not its connection is open; it leaves every other
    record and name as it is, and it pushes one zeroed record on the
    pool for each record it removes. *)
Theorem server_js_sweep now t :
  NoDup (ServerJs.userActivity t).*1 →
  let t' := ServerJs.sweep now t in
  (∀ id a, Map_get id (ServerJs.userActivity t) = Some a →
     300000 < now - ServerJs.lastActivity a →
     Map_get id (ServerJs.userActivity t') = None
     ∧ ServerJs.socketIdToUserName t' !! id = None)
  ∧ (∀ id a, Map_get id (ServerJs.userActivity t) = Some a →
       now - ServerJs.lastActivity a ≤ 300000 →
       Map_get id (ServerJs.userActivity t') = Some a
       ∧ ServerJs.socketIdToUserName t' !! id = ServerJs.socketIdToUserName t !! id)
  ∧ (∀ id, Map_get id (ServerJs.userActivity t) = None →
       Map_get id (ServerJs.userActivity t') = None
       ∧ ServerJs.socketIdToUserName t' !! id = ServerJs.socketIdToUserName t !! id)
  ∧ ServerJs.activityPool t'
    = (ServerJs.activityPool t
       ++ replicate
            (List.length
               (filter (λ kv, 300000 < now - ServerJs.lastActivity kv.2)
                  (ServerJs.userActivity t)))
            (ServerJs.mkActivity 0 0 0 0))%list.
Proof.
  intros Hnd t'. subst t'. unfold ServerJs.sweep. split_and!.
  - intros id a Ha Hst.
    apply (sweep_fold now (ServerJs.userActivity t) t id).
    apply Exists_exists. exists (id, a). split; [by apply Map_get_elem_of|done].
  - intros id a Ha Hst.
    destruct (sweep_fold now (ServerJs.userActivity t) t id) as [_ Hkeep].
    rewrite <- Ha. apply Hkeep. intros ([k a0] & Hin & Hk & Hst0)%Exists_exists.
    simpl in Hk, Hst0. subst k.
    apply (Map_elem_of_get _ _ _ Hnd) in Hin. rewrite Ha in Hin.
    injection Hin as <-. lia.
  - intros id Ha.
    destruct (sweep_fold now (ServerJs.userActivity t) t id) as [_ Hkeep].
    destruct Hkeep as [Hu Hn].
    2:{ split; [by rewrite Hu|done]. }
    intros ([k a0] & Hin & Hk & _)%Exists_exists.
    simpl in Hk. subst k.
    apply (Map_elem_of_get _ _ _ Hnd) in Hin. congruence.
  - apply sweep_fold_pool.
Qed.

Lemma server_js_sweep_witness :
  let t := ServerJs.mkTracker
             [("A", ServerJs.mkActivity 0 3 0 1); ("B", ServerJs.mkActivity 200000 0 200000 0)]
             (<["A" := JStr "bob"]> ∅) [] in
  Map_get "A" (ServerJs.userActivity (ServerJs.sweep 300001 t)) = None
  ∧ ServerJs.socketIdToUserName (ServerJs.sweep 300001 t) !! "A" = None.
Proof.
  apply (server_js_sweep 300001
           (ServerJs.mkTracker
              [("A", ServerJs.mkActivity 0 3 0 1);
               ("B", ServerJs.mkActivity 200000 0 200000 0)]
              (<["A" := JStr "bob"]> ∅) []))
    with (a := ServerJs.mkActivity 0 3 0 1).
  - simpl. apply NoDup_cons. split; [|apply NoDup_singleton].
    intros H%list_elem_of_singleton. discriminate.
  - reflexivity.
  - simpl. lia.
Defined.

Lemma Map_set_existing_keys {V} k (v v0 : V) (m : list (string * V)) :
  Map_get k m = Some v0 → (Map_set k v m).*1 = m.*1.
Proof. intros H. rewrite Map_set_keys. unfold Map_has. by rewrite H. Qed.

Lemma server_js_run_check_keeps ua c :
  (ServerJs.run_check ua c).*1 = ua.*1
  ∧ ∀ i a, Map_get i ua = Some a →
      ∃ a', Map_get i (ServerJs.run_check ua c) = Some a'
            ∧ ServerJs.lastActivity a' = ServerJs.lastActivity a.
Proof.
  assert (∀ id (a0 a1 : ServerJs.Activity),
    Map_get id ua = Some a0 → ServerJs.lastActivity a1 = ServerJs.lastActivity a0 →
    (Map_set id a1 ua).*1 = ua.*1
    ∧ ∀ i a, Map_get i ua = Some a →
        ∃ a', Map_get i (Map_set id a1 ua) = Some a'
              ∧ ServerJs.lastActivity a' = ServerJs.lastActivity a) as Hset.
  { intros id a0 a1 Ha0 Hl. split; [by apply (Map_set_existing_keys _ _ a0)|].
    intros i a Ha. destruct (decide (id = i)) as [<-|Hne].
    - rewrite Map_get_set_eq. exists a1. split; [done|]. congruence.
    - rewrite Map_get_set_ne by done. by exists a. }
  assert ((ua.*1 = ua.*1)
    ∧ ∀ i a, Map_get i ua = Some a →
        ∃ a', Map_get i ua = Some a'
              ∧ ServerJs.lastActivity a' = ServerJs.lastActivity a) as Hid.
  { split; [done|]. intros i a Ha. by exists a. }
  destruct c as [now id|now id]; simpl.
  - unfold ServerJs.checkMessageRate.
    destruct (Map_get id ua) as [a0|] eqn:Ha0; [|done].
    destruct (now - ServerJs.lastActivity a0 <? _); [done|].
    destruct (now - ServerJs.joinTime a0 >? 60000); simpl;
      repeat case_match; simpl; by apply (Hset id a0).
  - unfold ServerJs.checkRoomJoinRate.
    destruct (Map_get id ua) as [a0|] eqn:Ha0; [|done].
    destruct (now - ServerJs.joinTime a0 >? 3600000); simpl;
      repeat case_match; simpl; by apply (Hset id a0).
Qed.

Lemma server_js_run_checks_keep ua checks :
  (foldl ServerJs.run_check ua checks).*1 = ua.*1
  ∧ ∀ i a, Map_get i ua = Some a →
      ∃ a', Map_get i (foldl ServerJs.run_check ua checks) = Some a'
            ∧ ServerJs.lastActivity a' = ServerJs.lastActivity a.
Proof.
  revert ua. induction checks as [|c checks IH]; intros ua; cbn [foldl].
  - split; [done|]. intros i a Ha. by exists a.
  - destruct (server_js_run_check_keeps ua c) as [Hk Hl].
    destruct (IH (ServerJs.run_check ua c)) as [Hk' Hl'].
    split; [congruence|]. intros i a Ha.
    destruct (Hl i a Ha) as (a1 & Ha1 & Hl1).
    destruct (Hl' i a1 Ha1) as (a2 & Ha2 & Hl2).
    exists a2. split; [done|]. congruence.
Qed.

(** X19 (initializeUserActivity, the limiters and the sweep of
    src/server.js): the limiters never write [lastActivity], so the
    record that a connection gets at time [t0] keeps [t0] through any
    sequence of message and join checks, and the first sweep later than
    [t0 + 300000] removes the record together with the display name of
    the connection.  From then on both limiters accept everything the
    connection sends. *)
Theorem server_js_rate_limit_lapses tr id t0 t0' checks names pool now :
  NoDup (ServerJs.userActivity tr).*1 →
  300000 < now - t0 →
  let tr1 := ServerJs.initializeUserActivity t0 t0' id tr in
  let tr2 :=
    ServerJs.mkTracker (foldl ServerJs.run_check (ServerJs.userActivity tr1) checks)
      names pool in
  let tr3 := ServerJs.sweep now tr2 in
  Map_get id (ServerJs.userActivity tr3) = None
  ∧ ServerJs.socketIdToUserName tr3 !! id = None
  ∧ ∀ t, ServerJs.checkMessageRate t id (ServerJs.userActivity tr3)
         = (true, ServerJs.userActivity tr3)
         ∧ ServerJs.checkRoomJoinRate t id (ServerJs.userActivity tr3)
           = (true, ServerJs.userActivity tr3).
Proof.
  intros Hnd Hold tr1 tr2 tr3.
  assert (NoDup (ServerJs.userActivity tr1).*1
          ∧ Map_get id (ServerJs.userActivity tr1)
            = Some (ServerJs.mkActivity t0 0 t0' 0)) as [Hnd1 Hget1].
  { subst tr1. unfold ServerJs.initializeUserActivity.
    destruct (ServerJs.getActivityFromPool _) as [activity pool']. simpl.
    split; [by apply NoDup_Map_set|apply Map_get_set_eq]. }
  destruct (server_js_run_checks_keep (ServerJs.userActivity tr1) checks)
    as [Hkeys Hlast].
  destruct (Hlast id _ Hget1) as (a & Ha & Hla). simpl in Hla.
  assert (NoDup (ServerJs.userActivity tr2).*1) as Hnd2
    by (subst tr2; simpl; by rewrite Hkeys).
  assert (Map_get id (ServerJs.userActivity tr3) = None
          ∧ ServerJs.socketIdToUserName tr3 !! id = None) as [Hnone Hname].
  { subst tr3. unfold ServerJs.sweep.
    apply (sweep_fold now (ServerJs.userActivity tr2) tr2 id).
    apply Exists_exists. exists (id, a). split; [by apply Map_get_elem_of|].
    simpl. split; [done|lia]. }
  split_and!; try done.
  intros t. unfold ServerJs.checkMessageRate, ServerJs.checkRoomJoinRate.
  by rewrite Hnone.
Qed.

Lemma server_js_rate_limit_lapses_witness :
  let tr1 := ServerJs.initializeUserActivity 0 0 "A" (ServerJs.mkTracker [] ∅ []) in
  let tr2 :=
    ServerJs.mkTracker
      (foldl ServerJs.run_check (ServerJs.userActivity tr1)
         [ServerJs.CheckJoin 10 "A"; ServerJs.CheckMessage 299000 "A"])
      (<["A" := JStr "bob"]> ∅) [] in
  Map_get "A" (ServerJs.userActivity (ServerJs.sweep 300001 tr2)) = None
  ∧ ServerJs.socketIdToUserName (ServerJs.sweep 300001 tr2) !! "A" = None.
Proof.
  intros tr1 tr2.
  destruct (server_js_rate_limit_lapses (ServerJs.mkTracker [] ∅ []) "A" 0 0
              [ServerJs.CheckJoin 10 "A"; ServerJs.CheckMessage 299000 "A"]
              (<["A" := JStr "bob"]> ∅) [] 300001) as (H1 & H2 & _).
  - apply NoDup_nil_2.
  - lia.
  - split; [exact H1|exact H2].
Defined.

(** X21 (getActivityFromPool, returnActivityToPool,
    initializeUserActivity of src/server.js, lines 99-132): recycling is
    invisible.  A record that is returned to the pool comes back zeroed
    and leaves the pool as it was, and the record that a new connection
    gets is the same whatever the pool holds. *)
Theorem server_js_pool_recycling a pool pool' t0 t0' id ua names :
  ServerJs.getActivityFromPool (ServerJs.returnActivityToPool a pool)
  = (ServerJs.mkActivity 0 0 0 0, pool)
  ∧ ServerJs.userActivity
      (ServerJs.initializeUserActivity t0 t0' id (ServerJs.mkTracker ua names pool))
    = ServerJs.userActivity
        (ServerJs.initializeUserActivity t0 t0' id (ServerJs.mkTracker ua names pool'))
  ∧ Map_get id
      (ServerJs.userActivity
         (ServerJs.initializeUserActivity t0 t0' id (ServerJs.mkTracker ua names pool)))
    = Some (ServerJs.mkActivity t0 0 t0' 0).
Proof.
  split_and!.
  - unfold ServerJs.getActivityFromPool, ServerJs.returnActivityToPool.
    rewrite rev_app_distr. simpl. by rewrite rev_involutive.
  - unfold ServerJs.initializeUserActivity. simpl.
    by destruct (ServerJs.getActivityFromPool pool),
      (ServerJs.getActivityFromPool pool').
  - unfold ServerJs.initializeUserActivity. simpl.
    destruct (ServerJs.getActivityFromPool pool). simpl. apply Map_get_set_eq.
Qed.

(** ** Refused requests *)

Lemma with_activity_id s : with_activity (userActivity s) s = s.
Proof. by destruct s. Qed.

Lemma refused_message_check now id (ua : gmap string Activity) :
  (checkMessageRate now id ua).1 = false → checkMessageRate now id ua = (false, ua).
Proof.
  unfold checkMessageRate, BOT_PROTECTION.MAX_MESSAGES_PER_MINUTE.
  destruct (ua !! id) as [a|] eqn:Ha; [|done].
  destruct (now - lastActivity a <? _); [done|].
  destruct (now - lastMessageReset a >? 60000); simpl; [done|].
  destruct (messageCount a >=? 10); simpl; [|done].
  intros _. f_equal. by apply insert_id.
Qed.

Lemma refused_join_check now id (ua : gmap string Activity) :
  (checkRoomJoinRate now id ua).1 = false → checkRoomJoinRate now id ua = (false, ua).
Proof.
  unfold checkRoomJoinRate, BOT_PROTECTION.MAX_ROOMS_PER_HOUR.
  destruct (ua !! id) as [a|] eqn:Ha; [|done].
  destruct (now - lastRoomJoinReset a >? 3600000); simpl; [done|].
  destruct (roomJoins a >=? 5); simpl; [|done].
  intros _. f_equal. by apply insert_id.
Qed.

(** X20 (join and chat-message with the limiters): a join or a chat
    message that the limiter refuses changes nothing at all: the sender
    gets the error of the limiter, stays in its room, and every
    activity record is as before. *)
Theorem refused_by_limiter_changes_nothing now s id :
  is_connected s id = true →
  (∀ r, roomId_rejected (JStr r) = false →
        (checkRoomJoinRate now id (userActivity s)).1 = false →
        dispatch now s (Join id (JStr r))
        = returns s [(id, ErrorEv "room" Msg.join_rate)])
  ∧ (∀ author text timestamp, validateMessage text = true →
        (checkMessageRate now id (userActivity s)).1 = false →
        dispatch now s (ChatMessage id author text timestamp)
        = returns s [(id, ErrorEv "chat" Msg.message_rate)]).
Proof.
  intros Hconn. unfold dispatch, sender. rewrite Hconn.
  change (negb true) with false. cbv iota. split.
  - intros r Hrej Hno. unfold on_join. rewrite Hrej.
    rewrite (refused_join_check _ _ _ Hno).
    change (template_throws (JStr r)) with false.
    change (negb false) with true. cbv iota beta zeta.
    by rewrite with_activity_id.
  - intros author text timestamp Hvalid Hno. unfold on_chat_message.
    rewrite (proj1 (proj2 validated_template_ok) text Hvalid).
    rewrite Hvalid, (refused_message_check _ _ _ Hno).
    change (negb true) with false. change (negb false) with true.
    cbv iota beta zeta. by rewrite with_activity_id.
Qed.

Lemma refused_by_limiter_changes_nothing_witness :
  dispatch 500 three_in_room (ChatMessage "A" JUndefined (JStr "hello") (JNum 1))
  = returns three_in_room [("A", ErrorEv "chat" Msg.message_rate)].
Proof.
  apply (refused_by_limiter_changes_nothing 500 three_in_room "A").
  - reflexivity.
  - reflexivity.
  - reflexivity.
Defined.

(** ** Where a signal goes *)

Lemma NoDup_singleton_eq {A} (l : list A) (b : A) :
  NoDup l → (∀ x, x ∈ l ↔ x = b) → l = [b].
Proof.
  intros Hnd Hl. destruct l as [|x l].
  - assert (b ∈ []) as Hb by (by apply Hl). by apply elem_of_nil in Hb.
  - assert (x = b) as -> by (apply Hl; left).
    destruct l as [|y l]; [done|].
    assert (y = b) as -> by (apply Hl; right; left).
    apply NoDup_cons in Hnd as [Hnd _]. exfalso. apply Hnd. left.
Qed.

(** X22 (signal, lines 221-222, with the rooms of the transport): a
    signal between two members of one room whose payload is [null] or
    [undefined] makes the handler throw before anything is sent.  With
    any other payload the signal is emitted to the room of the transport
    that is named by the identifier of the target.  It reaches the
    target as long as the target has not left that room, and with it
    every connection whose current room has that name; each of them once
    and nobody else.  When the directory has no room of that name and
    the target is in its own room, the target is the only receiver. *)
Theorem signal_routing now s a b data :
  reachable s → is_connected s a = true → same_room s a b →
  let res := dispatch now s (Signal a (JStr b) data) in
  st res = s
  ∧ (nullish data = true → out res = [] ∧ threw res = true)
  ∧ (nullish data = false →
     threw res = false
     ∧ NoDup (out res)
     ∧ (∀ rcpt ev, (rcpt, ev) ∈ out res
          ↔ ev = SignalEv a data
            ∧ ((rcpt = b ∧ member (sioRooms s) b b)
               ∨ (is_connected s rcpt = true ∧ current_room s rcpt = Some b)))
     ∧ (member (sioRooms s) b b → Map_get b (roomIdToSocketIds s) = None
        → out res = [(b, SignalEv a data)])).
Proof.
  intros Hreach Ha Hsame res. subst res. unfold dispatch. simpl.
  rewrite Ha. simpl. pose proof (reachable_Inv s Hreach) as HI.
  split; [apply on_signal_state|].
  assert (truthy (JStr b) = true) as Htb.
  { destruct Hsame as (r & _ & Hb). apply (inv_member s HI) in Hb as [Hb _].
    destruct (connected_lookup s b Hb) as (k & Hk & _).
    simpl. apply negb_true_iff, String.eqb_neq, (inv_ids s HI). by eexists. }
  unfold on_signal. rewrite Htb.
  pose proof (find_target_room_same_room s a b HI) as Hfind.
  destruct (find_target_room a (JStr b) (roomIdToSocketIds s)) as [r|]; [|done].
  destruct Hfind as [_ Htr]. unfold truthy_str. rewrite Htr. simpl.
  split; [by intros ->|]. intros ->. simpl.
  assert (NoDup (default [] (Map_get b (sioRooms s)))) as Hnd.
  { destruct (Map_get b (sioRooms s)) as [peers|] eqn:Hg; [|apply NoDup_nil_2].
    by apply (proj2 (inv_sio_rooms s HI) b peers). }
  assert (∀ rcpt, rcpt ∈ default [] (Map_get b (sioRooms s))
                  ↔ member (sioRooms s) rcpt b) as Hin.
  { intros rcpt. unfold member.
    destruct (Map_get b (sioRooms s)) as [peers|]; simpl; [naive_solver|].
    split; [by intros ?%elem_of_nil|]. by intros (? & ? & _). }
  assert (∀ rcpt, member (sioRooms s) rcpt b
                  ↔ (rcpt = b ∧ member (sioRooms s) b b)
                    ∨ (is_connected s rcpt = true ∧ current_room s rcpt = Some b))
    as Hmem.
  { intros rcpt. rewrite <- (inv_member s HI). split.
    - intros Hm. destruct (inv_sio_own s HI rcpt b Hm) as [?| ->]; [by right|by left].
    - intros [[-> Hm]|Hm]; [done|]. by apply (inv_sio_dir s HI). }
  split_and!; try done.
  - apply NoDup_fmap_2; [|done]. by intros x y [= ->].
  - intros rcpt ev. rewrite list_elem_of_fmap. split.
    + intros (x & [= -> ->] & Hx). split; [done|]. by apply Hmem, Hin.
    + intros [-> Hr]. exists rcpt. split; [done|]. by apply Hin, Hmem.
  - intros Hown Hnone. rewrite (NoDup_singleton_eq _ b Hnd); [done|].
    intros x. rewrite Hin, Hmem. split.
    + intros [[-> _]|Hx]; [done|]. apply (inv_member s HI) in Hx as (? & Hg & _).
      congruence.
    + intros ->. by left.
Qed.

Lemma signal_routing_witness :
  out (dispatch 50 three_in_room (Signal "A" (JStr "B") (JObj "offer")))
  = [("B", SignalEv "A" (JObj "offer"))]
  ∧ NoDup (out (dispatch 50 room_named_by_id
                  (Signal "AAAA" (JStr "BBBB") (JObj "offer")))).
Proof.
  split.
  - apply (signal_routing 50 three_in_room "A" "B" (JObj "offer")).
    + apply reachable_run, reachable_initial.
    + reflexivity.
    + exists "room_1". split; exists ["A"; "B"; "C"]; (split; [reflexivity|]);
        apply list_elem_of_In; simpl; auto.
    + reflexivity.
    + exists ["B"]. split; [reflexivity|]. apply list_elem_of_singleton. reflexivity.
    + reflexivity.
  - apply (signal_routing 50 room_named_by_id "AAAA" "BBBB" (JObj "offer")).
    + apply reachable_run, reachable_initial.
    + reflexivity.
    + exists "room_1". split; exists ["AAAA"; "BBBB"]; (split; [reflexivity|]);
        apply list_elem_of_In; simpl; auto.
    + reflexivity.
Defined.

(** Two runs in which the room of the transport that is named by the
    target is not the target alone: a connection that has joined a room
    of that name receives the signal too, and a target that has left
    that room receives nothing. *)
Lemma signal_rooms_named_by_identifiers :
  out (dispatch 50 room_named_by_id (Signal "AAAA" (JStr "BBBB") (JObj "offer")))
  = [("BBBB", SignalEv "AAAA" (JObj "offer"));
     ("EEEE", SignalEv "AAAA" (JObj "offer"))]
  ∧ dispatch 50 own_room_left (Signal "AAAA" (JStr "BBBB") (JObj "offer"))
    = returns own_room_left [].
Proof. split; reflexivity. Qed.

(** ** The guard of join and leave *)

(** X23 (join and leave, lines 135-147 and 172-178): the guard accepts
    exactly the strings of 3 to 32 letters, digits, hyphens and
    underscores.  A join or leave with any other room identifier
    changes nothing and is answered with the error of type [room],
    unless the log line throws on the identifier: then nothing is sent.
    A join with an accepted identifier that passes the rate limit makes
    the sender a member of that room, with that room as its current
    one, and sends it a [peers-list]. *)
Theorem join_guard now s id v :
  reachable s → is_connected s id = true →
  (roomId_rejected v = false
   ↔ ∃ r, v = JStr r ∧ (3 ≤ String.length r ≤ 32)%nat
          ∧ Forall RoomIdChar (list_ascii_of_string r))
  ∧ (roomId_rejected v = true
     → dispatch now s (Join id v)
       = (if template_throws v then mkResult s [] true
          else returns s [(id, ErrorEv "room" Msg.bad_room)])
       ∧ dispatch now s (Leave id v) = dispatch now s (Join id v))
  ∧ (∀ r, v = JStr r → roomId_rejected v = false →
       (checkRoomJoinRate now id (userActivity s)).1 = true →
       let res := dispatch now s (Join id v) in
       member (roomIdToSocketIds (st res)) id r
       ∧ current_room (st res) id = Some r
       ∧ threw res = false
       ∧ ∃ peers, (id, PeersList peers) ∈ out res).
Proof.
  intros Hreach Hconn. pose proof (reachable_Inv s Hreach) as HI.
  split; [apply roomId_accepted_spec|]. unfold dispatch. simpl. rewrite Hconn.
  simpl. split.
  - intros Hrej. unfold on_join, on_leave. rewrite Hrej.
    by destruct (template_throws v).
  - intros r -> Hrej Hrate.
    destruct (connected_lookup s id Hconn) as (k & Hk & Hck).
    destruct (checkRoomJoinRate now id (userActivity s)) as [ok ua] eqn:Hr.
    simpl in Hrate. subst ok.
    destruct (on_join_result now id r s k ua HI Hk Hck Hrej Hr) as (Hout & _ & _).
    rewrite Hout, (on_join_accepted now id r s k ua HI Hk Hck Hrej Hr). simpl.
    split_and!.
    + apply member_socket_join. by right.
    + unfold current_room. simpl. by rewrite lookup_insert_eq.
    + unfold on_join. rewrite Hrej, Hr. simpl.
      destruct (current_room (with_activity ua s) id) as [c|]; [|done].
      destruct (negb (c =? "")%string); [|done].
      by destruct (leave_room id c _).
    + eexists. apply elem_of_app. right. left.
Qed.

Lemma join_guard_witness :
  dispatch 50 three_in_room (Join "A" (JStr "ab"))
  = returns three_in_room [("A", ErrorEv "room" Msg.bad_room)]
  ∧ member (roomIdToSocketIds (st (dispatch 50 two_rooms (Join "D" (JStr "room_1")))))
      "D" "room_1".
Proof.
  split.
  - apply (join_guard 50 three_in_room "A" (JStr "ab")).
    + apply reachable_run, reachable_initial.
    + reflexivity.
    + reflexivity.
  - apply (join_guard 50 two_rooms "D" (JStr "room_1")) with (r := "room_1").
    + apply reachable_run, reachable_initial.
    + reflexivity.
    + reflexivity.
    + reflexivity.
    + reflexivity.
Defined.
